(** * auto_car: wheel actuation, drive commands and the frame streaming loops

    A shallow embedding of [car.py], [pilot_client.py], [pilot_serv.py] and
    the keyboard controller of [collect_data.py].

    - Python numbers that reach the PWM driver are embedded as binary64
      values ([float]): the integers the program uses (0, 1, 4) are exact
      in binary64, Python compares an [int] and a [float] by value, and
      [0.2] denotes the same double in both languages.
    - Every call on an external collaborator (RPi.GPIO, the socket file
      object, the camera, [print]) is recorded as an [event]; a method is a
      function from the object's state to its new state together with the
      events it emitted, oldest first.
    - The calls on RPi.GPIO are taken to return. Where a property turns on
      the driver refusing a value, the rotate methods are given a second
      time, over a driver whose [ChangeDutyCycle] may raise. *)

From Stdlib Require Import ZArith NArith List String Ascii Bool Lia.
From Stdlib Require Import Strings.Byte DecimalString DecimalN.
From Stdlib Require Import Floats.PrimFloat.
Import ListNotations.

Set Warnings "-inexact-float".
Local Open Scope list_scope.

(** ** Events on the external collaborators *)

Inductive level := HIGH | LOW.

Inductive event :=
| Setmode                                    (* GPIO.setmode(GPIO.BOARD) *)
| Setup (pin : Z)                            (* GPIO.setup(pin, GPIO.OUT) *)
| PwmStart (pin freq : Z) (dc : float)       (* GPIO.PWM(pin, freq).start(dc) *)
| Output (pin : Z) (l : level)               (* GPIO.output(pin, l) *)
| ChangeDutyCycle (pin : Z) (dc : float)     (* pwm.ChangeDutyCycle(dc) *)
| Print (msg : string)                       (* print(msg) *)
| Capture (frame : list byte)                (* camera.capture_continuous yields *)
| ConnWrite (data : list byte)               (* connection.write(data) *)
| ConnFlush                                  (* connection.flush() *)
| ConnRead (size : N) (got : list byte).     (* connection.read(size) -> got *)

(** A method with effects: its result and the events it emitted. *)
Definition act (A : Type) : Type := (A * list event)%type.

Definition ret {A} (a : A) : act A := (a, []).

Definition bind {A B} (m : act A) (k : A -> act B) : act B :=
  let '(a, t1) := m in
  let '(b, t2) := k a in
  (b, t1 ++ t2).

Definition emit (e : event) : act unit := (tt, [e]).

Declare Scope act_scope.
Delimit Scope act_scope with act.
Notation "x <- m ;; k" := (bind m (fun x => k))
  (at level 61, m at next level, right associativity) : act_scope.
Notation "' pat <- m ;; k" := (bind m (fun x => let 'pat := x in k))
  (at level 61, pat pattern, m at next level, right associativity) : act_scope.
Notation "m ;;; k" := (bind m (fun _ => k))
  (at level 61, right associativity) : act_scope.

(** ** What the driver last received

    The hardware view of a trace: the level last written to a pin and the
    duty cycle last given to a PWM channel. *)

Definition level_in (e : event) (pin : Z) : option level :=
  match e with
  | Output p l => if Z.eqb p pin then Some l else None
  | _ => None
  end.

Definition duty_in (e : event) (pin : Z) : option float :=
  match e with
  | PwmStart p _ dc | ChangeDutyCycle p dc => if Z.eqb p pin then Some dc else None
  | _ => None
  end.

Fixpoint last_of {A} (f : event -> option A) (tr : list event) (acc : option A)
  : option A :=
  match tr with
  | [] => acc
  | e :: tr' =>
      last_of f tr' (match f e with Some a => Some a | None => acc end)
  end.

Definition level_of (tr : list event) (pin : Z) : option level :=
  last_of (fun e => level_in e pin) tr None.

Definition duty_of (tr : list event) (pin : Z) : option float :=
  last_of (fun e => duty_in e pin) tr None.

(** Counting what a trace wrote. *)

Definition is_output (e : event) : bool :=
  match e with Output _ _ => true | _ => false end.

Definition is_duty (e : event) : bool :=
  match e with ChangeDutyCycle _ _ => true | _ => false end.

Definition is_print (e : event) : bool :=
  match e with Print _ => true | _ => false end.

Definition is_gpio (e : event) : bool :=
  match e with
  | Setmode | Setup _ | PwmStart _ _ _ | Output _ _ | ChangeDutyCycle _ _ => true
  | _ => false
  end.

Definition outputs (tr : list event) : list event := filter is_output tr.
Definition duty_writes (tr : list event) : list event := filter is_duty tr.

(** ** car.py: class Wheel *)

Module Wheel.

Record t := mk {
  _pwm_pin : Z;
  _dir_pin_1 : Z;
  _dir_pin_2 : Z;
  _pwm_freq : Z;
  _last_dir : string;       (* "s", "c" or "a" *)
  _last_dc_val : float;
  _current_dc_val : float
}.

(** Python's [!=] on the strings and numbers the class compares. *)
Definition str_ne (a b : string) : bool := negb (String.eqb a b).
Definition num_ne (a b : float) : bool := negb (PrimFloat.eqb a b).

(** [Wheel.__init__] *)
Definition init (pwm_pin dir_pin_1 dir_pin_2 pwm_freq : Z) : act t :=
  (mk pwm_pin dir_pin_1 dir_pin_2 pwm_freq "s" 0%float 0%float,
   [Setmode; Setup pwm_pin; Setup dir_pin_1; Setup dir_pin_2;
    PwmStart pwm_pin pwm_freq 0%float]).

Definition set_last_dir (d : string) (w : t) : t :=
  mk (_pwm_pin w) (_dir_pin_1 w) (_dir_pin_2 w) (_pwm_freq w)
     d (_last_dc_val w) (_current_dc_val w).

Definition set_last_dc_val (v : float) (w : t) : t :=
  mk (_pwm_pin w) (_dir_pin_1 w) (_dir_pin_2 w) (_pwm_freq w)
     (_last_dir w) v (_current_dc_val w).

Definition set_current_dc_val (v : float) (w : t) : t :=
  mk (_pwm_pin w) (_dir_pin_1 w) (_dir_pin_2 w) (_pwm_freq w)
     (_last_dir w) (_last_dc_val w) v.

(** The duty-cycle half shared by both rotate methods:
    [self._current_dc_val = speed], then the write if it differs. *)
Definition change_dc (speed : float) (w : t) : act t :=
  let w := set_current_dc_val speed w in
  if num_ne (_current_dc_val w) (_last_dc_val w)
  then (set_last_dc_val (_current_dc_val w) w,
        [ChangeDutyCycle (_pwm_pin w) speed])
  else (w, []).

(** [Wheel.clockwise_rotate] *)
Definition clockwise_rotate (speed : float) (w : t) : act t :=
  (w <- (if str_ne (_last_dir w) "c"
         then (set_last_dir "c" w,
               [Output (_dir_pin_1 w) HIGH; Output (_dir_pin_2 w) LOW])
         else ret w) ;;
   change_dc speed w)%act.

(** [Wheel.anticlockwise_rotate] *)
Definition anticlockwise_rotate (speed : float) (w : t) : act t :=
  (w <- (if str_ne (_last_dir w) "a"
         then (set_last_dir "a" w,
               [Output (_dir_pin_1 w) LOW; Output (_dir_pin_2 w) HIGH])
         else ret w) ;;
   change_dc speed w)%act.

(** [Wheel.stop] *)
Definition stop (w : t) : act t :=
  (set_last_dir "s" w,
   [Output (_dir_pin_1 w) HIGH; Output (_dir_pin_2 w) HIGH]).

End Wheel.

(** ** car.py: trim constants and class Car *)

Definition LEFT_FR_BIAS : float := 1.      (* between the two left wheels *)
Definition RIGHT_FR_BIAS : float := 1.     (* between the two right wheels *)
Definition LEFT_RIGHT_BIAS : float := 0.2. (* between left and right wheels *)

Module Car.

Local Open Scope float_scope.
Local Open Scope act_scope.

Record t := mk {
  _front_left_wheel : Wheel.t;
  _front_right_wheel : Wheel.t;
  _rear_left_wheel : Wheel.t;
  _rear_right_wheel : Wheel.t
}.

(** [Car.move_forward] *)
Definition move_forward (speed : float) (car : t) : act t :=
  fl <- Wheel.anticlockwise_rotate (speed + LEFT_FR_BIAS + LEFT_RIGHT_BIAS)
                                   (_front_left_wheel car) ;;
  fr <- Wheel.clockwise_rotate (speed + RIGHT_FR_BIAS) (_front_right_wheel car) ;;
  rl <- Wheel.anticlockwise_rotate (speed + LEFT_RIGHT_BIAS) (_rear_left_wheel car) ;;
  rr <- Wheel.clockwise_rotate speed (_rear_right_wheel car) ;;
  ret (mk fl fr rl rr).

(** [Car.move_reverse] *)
Definition move_reverse (speed : float) (car : t) : act t :=
  fl <- Wheel.clockwise_rotate (speed + LEFT_FR_BIAS + LEFT_RIGHT_BIAS)
                               (_front_left_wheel car) ;;
  fr <- Wheel.anticlockwise_rotate (speed + RIGHT_FR_BIAS) (_front_right_wheel car) ;;
  rl <- Wheel.clockwise_rotate (speed + LEFT_RIGHT_BIAS) (_rear_left_wheel car) ;;
  rr <- Wheel.anticlockwise_rotate speed (_rear_right_wheel car) ;;
  ret (mk fl fr rl rr).

(** [Car.turn_left] *)
Definition turn_left (speed : float) (car : t) : act t :=
  fl <- Wheel.anticlockwise_rotate (1 + LEFT_FR_BIAS + LEFT_RIGHT_BIAS)
                                   (_front_left_wheel car) ;;
  fr <- Wheel.clockwise_rotate (speed + RIGHT_FR_BIAS) (_front_right_wheel car) ;;
  rl <- Wheel.anticlockwise_rotate (1 + LEFT_RIGHT_BIAS) (_rear_left_wheel car) ;;
  rr <- Wheel.clockwise_rotate speed (_rear_right_wheel car) ;;
  ret (mk fl fr rl rr).

(** [Car.turn_right] *)
Definition turn_right (speed : float) (car : t) : act t :=
  fl <- Wheel.anticlockwise_rotate (speed + LEFT_FR_BIAS + LEFT_RIGHT_BIAS)
                                   (_front_left_wheel car) ;;
  fr <- Wheel.clockwise_rotate (1 + RIGHT_FR_BIAS) (_front_right_wheel car) ;;
  rl <- Wheel.anticlockwise_rotate (speed + LEFT_RIGHT_BIAS) (_rear_left_wheel car) ;;
  rr <- Wheel.clockwise_rotate 1 (_rear_right_wheel car) ;;
  ret (mk fl fr rl rr).

(** [Car.rotate_left] *)
Definition rotate_left (speed : float) (car : t) : act t :=
  fl <- Wheel.clockwise_rotate (speed + LEFT_FR_BIAS + LEFT_RIGHT_BIAS)
                               (_front_left_wheel car) ;;
  fr <- Wheel.clockwise_rotate (speed + RIGHT_FR_BIAS) (_front_right_wheel car) ;;
  rl <- Wheel.clockwise_rotate (speed + 1 + LEFT_RIGHT_BIAS) (_rear_left_wheel car) ;;
  rr <- Wheel.clockwise_rotate speed (_rear_right_wheel car) ;;
  ret (mk fl fr rl rr).

(** [Car.rotate_right] *)
Definition rotate_right (speed : float) (car : t) : act t :=
  fl <- Wheel.anticlockwise_rotate (speed + LEFT_FR_BIAS + LEFT_RIGHT_BIAS)
                                   (_front_left_wheel car) ;;
  fr <- Wheel.anticlockwise_rotate (speed + RIGHT_FR_BIAS) (_front_right_wheel car) ;;
  rl <- Wheel.anticlockwise_rotate (speed + 1 + LEFT_RIGHT_BIAS) (_rear_left_wheel car) ;;
  rr <- Wheel.anticlockwise_rotate speed (_rear_right_wheel car) ;;
  ret (mk fl fr rl rr).

(** [Car.stop] *)
Definition stop (car : t) : act t :=
  fl <- Wheel.stop (_front_left_wheel car) ;;
  fr <- Wheel.stop (_front_right_wheel car) ;;
  rl <- Wheel.stop (_rear_left_wheel car) ;;
  rr <- Wheel.stop (_rear_right_wheel car) ;;
  ret (mk fl fr rl rr).

End Car.

(** ** The socket file object and [struct]'s ['<L'] format *)

Definition byte_of_N (n : N) : byte :=
  match Byte.of_N (n mod 256) with
  | Some b => b
  | None => x00
  end.

(** [struct.pack('<L', n)]: four bytes, least significant first;
    [struct.error] ([None]) when [n] does not fit 32 bits. *)
Definition pack_L (n : N) : option (list byte) :=
  if (n <? 2 ^ 32)%N
  then Some [byte_of_N n; byte_of_N (n / 256);
             byte_of_N (n / 65536); byte_of_N (n / 16777216)]
  else None.

(** [struct.unpack('<L', data)[0]]: [struct.error] ([None]) unless [data]
    holds exactly [struct.calcsize('<L') = 4] bytes. *)
Definition unpack_L (data : list byte) : option N :=
  match data with
  | [b0; b1; b2; b3] =>
      Some (Byte.to_N b0 + 256 * Byte.to_N b1
            + 65536 * Byte.to_N b2 + 16777216 * Byte.to_N b3)%N
  | _ => None
  end.

Definition calcsize_L : N := 4.

(** [connection.read(size)] on the blocking file object: the next [size]
    bytes of the incoming stream, fewer only when the peer has closed.
    [inbuf] is everything the peer sends before closing. *)
Definition conn_read (size : N) (inbuf : list byte)
  : act (list byte * list byte) :=
  let got := firstn (N.to_nat size) inbuf in
  ((got, skipn (N.to_nat size) inbuf), [ConnRead size got]).

(** How a loop body ends: falls through to the next iteration, leaves the
    loop by [break], or raises. *)
Inductive outcome :=
| Continue
| Break
| Raised (exc : string).

(** ** car.py: the rotate methods when the driver may refuse a value

    [RPi.GPIO] is not part of the repository. [Wheel.clockwise_rotate] and
    [Wheel.anticlockwise_rotate] above are the two methods on the calls that
    return. Here the driver's answer to [ChangeDutyCycle(dc)] is left open:
    the call returns when [driver dc] is [None] and raises [exc] when it is
    [Some exc]. An exception leaves the method at once, so the assignment
    [self._last_dc_val = self._current_dc_val] that follows the call is not
    reached. *)

Section Driver.

Variable driver : float -> option string.

Local Open Scope act_scope.

Definition change_dc_on (speed : float) (w : Wheel.t) : act (outcome * Wheel.t) :=
  let w := Wheel.set_current_dc_val speed w in
  if Wheel.num_ne (Wheel._current_dc_val w) (Wheel._last_dc_val w)
  then
    emit (ChangeDutyCycle (Wheel._pwm_pin w) speed) ;;;
    match driver speed with
    | None => ret (Continue, Wheel.set_last_dc_val (Wheel._current_dc_val w) w)
    | Some exc => ret (Raised exc, w)
    end
  else ret (Continue, w).

Definition clockwise_rotate_on (speed : float) (w : Wheel.t)
  : act (outcome * Wheel.t) :=
  w <- (if Wheel.str_ne (Wheel._last_dir w) "c"
        then (Wheel.set_last_dir "c" w,
              [Output (Wheel._dir_pin_1 w) HIGH; Output (Wheel._dir_pin_2 w) LOW])
        else ret w) ;;
  change_dc_on speed w.

Definition anticlockwise_rotate_on (speed : float) (w : Wheel.t)
  : act (outcome * Wheel.t) :=
  w <- (if Wheel.str_ne (Wheel._last_dir w) "a"
        then (Wheel.set_last_dir "a" w,
              [Output (Wheel._dir_pin_1 w) LOW; Output (Wheel._dir_pin_2 w) HIGH])
        else ret w) ;;
  change_dc_on speed w.

End Driver.

(** The range the comment at the call names: [# 0.0 - 100.0]. *)
Definition documented_range (dc : float) : bool :=
  ((0 <=? dc) && (dc <=? 100))%float.

(** ** pilot_serv.py *)

Module Server.

Local Open Scope act_scope.

(** [str(key).encode('utf-8')] for the non-negative index [np.argmax]
    returns: its decimal digits in ASCII. *)
Definition encode_key (key : N) : list byte :=
  list_byte_of_string (NilZero.string_of_uint (N.to_uint key)).

Section Loop.

(** The perception collaborator: from the payload bytes to
    [np.argmax(model.predict(...))]. Image decoding, the preview window and
    the timing print happen inside it and touch neither the connection nor
    the loop's control flow. *)
Variable classify : list byte -> N.

(** One pass through the body of [while True]; [waitKey] is what
    [cv2.waitKey(1)] returns in this pass. *)
Definition iteration (waitKey : Z) (inbuf : list byte)
  : act (outcome * list byte) :=
  '(hdr, inbuf) <- conn_read calcsize_L inbuf ;;
  match unpack_L hdr with
  | None => ret (Raised "struct.error", inbuf)
  | Some image_len =>
      if (image_len =? 0)%N then ret (Break, inbuf)
      else
        '(payload, inbuf) <- conn_read image_len inbuf ;;
        let key := classify payload in
        emit (ConnWrite (encode_key key)) ;;;
        emit ConnFlush ;;;
        if (Z.land waitKey 255 =? 113)%Z     (* ord('q') *)
        then ret (Break, inbuf)
        else ret (Continue, inbuf)
  end.

(** The loop, observed for as many passes as [waitKeys] has entries. *)
Fixpoint loop (waitKeys : list Z) (inbuf : list byte)
  : act (outcome * list byte) :=
  match waitKeys with
  | [] => ret (Continue, inbuf)
  | k :: ks =>
      '(o, inbuf) <- iteration k inbuf ;;
      match o with
      | Continue => loop ks inbuf
      | _ => ret (o, inbuf)
      end
  end.

End Loop.

End Server.

(** ** pilot_client.py *)

Module Client.

Local Open Scope act_scope.

Record state := mk {
  my_car : Car.t;
  inbuf : list byte;     (* what the server will send, in order *)
  count : N
}.

(** The module-level construction of the four wheels and the car. *)
Definition make_car : act Car.t :=
  front_left_wheel <- Wheel.init 33 35 37 1500 ;;
  front_right_wheel <- Wheel.init 32 31 29 1500 ;;
  rear_left_wheel <- Wheel.init 40 38 36 1500 ;;
  rear_right_wheel <- Wheel.init 15 13 11 1500 ;;
  ret (Car.mk front_left_wheel front_right_wheel
              rear_left_wheel rear_right_wheel).

(** [connection.read(1).decode('utf-8')]. [read(1)] returns at most one
    byte; a lone byte is valid UTF-8 exactly when it is below 0x80, otherwise
    [decode] raises [UnicodeDecodeError] ([None]). *)
Definition decode_utf8 (got : list byte) : option string :=
  match got with
  | [] => Some EmptyString
  | [b] => if (Byte.to_N b <? 128)%N
           then Some (String (ascii_of_byte b) EmptyString)
           else None
  | _ => None
  end.

(** The [if]/[elif] chain on the decoded prediction. *)
Definition dispatch (key : string) (car : Car.t) : act Car.t :=
  if String.eqb key "0" then
    emit (Print "Move forward") ;;;
    Car.move_forward 4 car
  else if String.eqb key "1" then
    car <- Car.rotate_left 4 car ;;
    emit (Print "Turn left") ;;;
    ret car
  else if String.eqb key "2" then
    car <- Car.rotate_right 4 car ;;
    emit (Print "Turn right") ;;;
    ret car
  else ret car.

(** One pass through the body of the capture loop, for the frame the
    camera has just written to [stream]. *)
Definition iteration (frame : list byte) (st : state) : act (outcome * state) :=
  emit (Capture frame) ;;;
  match pack_L (N.of_nat (List.length frame)) with     (* stream.tell() *)
  | None => ret (Raised "struct.error", st)
  | Some hdr =>
      emit (ConnWrite hdr) ;;;
      emit ConnFlush ;;;
      emit (ConnWrite frame) ;;;
      let count := (count st + 1)%N in
      '(got, inbuf) <- conn_read 1 (inbuf st) ;;
      match decode_utf8 got with
      | None => ret (Raised "UnicodeDecodeError", mk (my_car st) inbuf count)
      | Some key =>
          car <- dispatch key (my_car st) ;;
          ret (Continue, mk car inbuf count)
      end
  end.

(** The capture loop over the frames the camera yields. *)
Fixpoint loop (frames : list (list byte)) (st : state) : act (outcome * state) :=
  match frames with
  | [] => ret (Continue, st)
  | f :: fs =>
      '(o, st) <- iteration f st ;;
      match o with
      | Continue => loop fs st
      | _ => ret (o, st)
      end
  end.


End Client.

(** ** Vocabulary of the properties *)

(** A call on one wheel, and a sequence of calls run in order. *)
Inductive call :=
| Clockwise (speed : float)
| Anticlockwise (speed : float)
| Stop.

Definition do_call (c : call) (w : Wheel.t) : act Wheel.t :=
  match c with
  | Clockwise speed => Wheel.clockwise_rotate speed w
  | Anticlockwise speed => Wheel.anticlockwise_rotate speed w
  | Stop => Wheel.stop w
  end.

Fixpoint do_calls (cs : list call) (w : Wheel.t) : act Wheel.t :=
  match cs with
  | [] => ret w
  | c :: cs' => bind (do_call c w) (do_calls cs')
  end.

(** The direction the two control pins of a wheel currently signal, in the
    letters [_last_dir] uses; [None] while a pin has never been written or
    when both are low. *)
Definition dir_signal (tr : list event) (w : Wheel.t) : option string :=
  match level_of tr (Wheel._dir_pin_1 w), level_of tr (Wheel._dir_pin_2 w) with
  | Some HIGH, Some LOW => Some "c"%string
  | Some LOW, Some HIGH => Some "a"%string
  | Some HIGH, Some HIGH => Some "s"%string
  | _, _ => None
  end.

(** The wheel's record agrees with what the driver last received. *)
Definition in_sync (tr : list event) (w : Wheel.t) : Prop :=
  dir_signal tr w = Some (Wheel._last_dir w) /\
  duty_of tr (Wheel._pwm_pin w) = Some (Wheel._last_dc_val w).

(** Following the spec's words (section 4.1): the value the spec wants
    issued for a requested duty cycle, clamped to [0, 100]. *)
Definition spec_clamp (v : float) : float :=
  if (v <? 0)%float then 0%float
  else if (100 <? v)%float then 100%float
  else v.

(** The first wheel [pilot_client.py] constructs, just after [__init__]. *)
Definition fresh_wheel : Wheel.t := fst (Wheel.init 33 35 37 1500).

(** What must hold before a call for the record and the driver to agree
    after it: the duty cycle agrees, and the direction agrees unless the
    record says "s" (as after [__init__], which writes no direction pin). *)
Definition settled (tr : list event) (w : Wheel.t) : Prop :=
  duty_of tr (Wheel._pwm_pin w) = Some (Wheel._last_dc_val w) /\
  (dir_signal tr w = Some (Wheel._last_dir w) \/ Wheel._last_dir w = "s"%string).

(** The car [pilot_client.py] constructs, before the first command. *)
Definition fresh_car : Car.t := fst Client.make_car.

(** Events on the camera and the connection. *)
Definition is_conn (e : event) : bool :=
  match e with
  | Capture _ | ConnWrite _ | ConnFlush | ConnRead _ _ => true
  | _ => false
  end.

(** A command of the car as the four wheel calls it makes, in the order
    front-left, front-right, rear-left, rear-right. *)
Definition car_calls (c1 c2 c3 c4 : call) (car : Car.t) : act Car.t :=
  (fl <- do_call c1 (Car._front_left_wheel car) ;;
   fr <- do_call c2 (Car._front_right_wheel car) ;;
   rl <- do_call c3 (Car._rear_left_wheel car) ;;
   rr <- do_call c4 (Car._rear_right_wheel car) ;;
   ret (Car.mk fl fr rl rr))%act.

(** A wheel that is being driven: its record says it turns, in one sense or
    the other, with a duty cycle that is not zero. *)
Definition driven (w : Wheel.t) : Prop :=
  (Wheel._last_dir w = "c"%string \/ Wheel._last_dir w = "a"%string)
  /\ (Wheel._last_dc_val w =? 0)%float = false.


Definition wheels (car : Car.t) : list Wheel.t :=
  [Car._front_left_wheel car; Car._front_right_wheel car;
   Car._rear_left_wheel car; Car._rear_right_wheel car].

Definition car_driven (car : Car.t) : Prop := Forall driven (wheels car).

(** The recorded duty cycle is the initial 0 or not zero at all. *)
Definition dc_ok (w : Wheel.t) : Prop :=
  Wheel._last_dc_val w = 0%float \/ (Wheel._last_dc_val w =? 0)%float = false.

Definition pins (w : Wheel.t) : Z * Z * Z :=
  (Wheel._pwm_pin w, Wheel._dir_pin_1 w, Wheel._dir_pin_2 w).

(** The pin assignment of [pilot_client.py]. *)
Definition client_pins (car : Car.t) : Prop :=
  map pins (wheels car) = [(33, 35, 37); (32, 31, 29); (40, 38, 36); (15, 13, 11)]%Z.

(** What every pass of the client loop maintains. *)
Definition client_inv (tr : list event) (car : Car.t) : Prop :=
  client_pins car
  /\ Forall (settled tr) (wheels car)
  /\ Forall dc_ok (wheels car).

(** A rotate call at a duty cycle that is not zero. *)
Definition rotation (c : call) : Prop :=
  match c with
  | Clockwise s | Anticlockwise s => (s =? 0)%float = false
  | Stop => False
  end.

(** The calls on the driver that a clockwise request of [v] makes on the
    wheel [w]: the two direction writes unless the wheel is already recorded
    clockwise, then the duty-cycle write unless the recorded duty cycle
    equals [v]. *)
Definition clockwise_events (v : float) (w : Wheel.t) : list event :=
  (if Wheel.str_ne (Wheel._last_dir w) "c"
   then [Output (Wheel._dir_pin_1 w) HIGH; Output (Wheel._dir_pin_2 w) LOW]
   else [])
  ++ (if Wheel.num_ne v (Wheel._last_dc_val w)
      then [ChangeDutyCycle (Wheel._pwm_pin w) v] else []).


(** The seven commands of [Car], and sequences of them. *)
Inductive command :=
| Forward (speed : float)
| Reverse (speed : float)
| TurnLeft (speed : float)
| TurnRight (speed : float)
| RotateLeft (speed : float)
| RotateRight (speed : float)
| Halt.

Definition do_command (c : command) (car : Car.t) : act Car.t :=
  match c with
  | Forward speed => Car.move_forward speed car
  | Reverse speed => Car.move_reverse speed car
  | TurnLeft speed => Car.turn_left speed car
  | TurnRight speed => Car.turn_right speed car
  | RotateLeft speed => Car.rotate_left speed car
  | RotateRight speed => Car.rotate_right speed car
  | Halt => Car.stop car
  end.

Fixpoint do_commands (cs : list command) (car : Car.t) : act Car.t :=
  match cs with
  | [] => ret car
  | c :: cs' => bind (do_command c car) (do_commands cs')
  end.

(** A rotate call whose speed is a number: Python's [speed != speed] is
    false for it. *)
Definition numeric (c : call) : Prop :=
  match c with
  | Clockwise s | Anticlockwise s => (s =? s)%float = true
  | Stop => False
  end.

(** The values the four wheels are asked for, front-left first. *)
Definition requests (car : Car.t) : list float :=
  map Wheel._current_dc_val (wheels car).

Definition directions (car : Car.t) : list string :=
  map Wheel._last_dir (wheels car).


(** The letter a call leaves in [_last_dir]. *)
Definition letter (c : call) : string :=
  match c with
  | Clockwise _ => "c"
  | Anticlockwise _ => "a"
  | Stop => "s"
  end.


(** The four wheel calls of a command, front-left, front-right, rear-left,
    rear-right. *)
Definition calls_of (c : command) : list call :=
  let lf := LEFT_FR_BIAS in
  let rf := RIGHT_FR_BIAS in
  let lr := LEFT_RIGHT_BIAS in
  match c with
  | Forward s =>
      [Anticlockwise (s + lf + lr); Clockwise (s + rf);
       Anticlockwise (s + lr); Clockwise s]
  | Reverse s =>
      [Clockwise (s + lf + lr); Anticlockwise (s + rf);
       Clockwise (s + lr); Anticlockwise s]
  | TurnLeft s =>
      [Anticlockwise (1 + lf + lr); Clockwise (s + rf);
       Anticlockwise (1 + lr); Clockwise s]
  | TurnRight s =>
      [Anticlockwise (s + lf + lr); Clockwise (1 + rf);
       Anticlockwise (s + lr); Clockwise 1]
  | RotateLeft s =>
      [Clockwise (s + lf + lr); Clockwise (s + rf);
       Clockwise (s + 1 + lr); Clockwise s]
  | RotateRight s =>
      [Anticlockwise (s + lf + lr); Anticlockwise (s + rf);
       Anticlockwise (s + 1 + lr); Anticlockwise s]
  | Halt => [Stop; Stop; Stop; Stop]
  end%float.

(** The four wheels, each after its own call. *)
Definition wheel_calls (cs : list call) (car : Car.t) : act Car.t :=
  match cs with
  | [c1; c2; c3; c4] => car_calls c1 c2 c3 c4 car
  | _ => ret car
  end.


(** The same call in the other sense of rotation. *)
Definition flip (c : call) : call :=
  match c with
  | Clockwise s => Anticlockwise s
  | Anticlockwise s => Clockwise s
  | Stop => Stop
  end.

(** The two direction-pin writes with which a call sets its direction. *)
Definition dir_events (c : call) (w : Wheel.t) : list event :=
  match c with
  | Clockwise _ =>
      [Output (Wheel._dir_pin_1 w) HIGH; Output (Wheel._dir_pin_2 w) LOW]
  | Anticlockwise _ =>
      [Output (Wheel._dir_pin_1 w) LOW; Output (Wheel._dir_pin_2 w) HIGH]
  | Stop =>
      [Output (Wheel._dir_pin_1 w) HIGH; Output (Wheel._dir_pin_2 w) HIGH]
  end.

(** An event on one of the wheel's own three channels. *)
Definition own_event (w : Wheel.t) (e : event) : bool :=
  match e with
  | Output p _ => Z.eqb p (Wheel._dir_pin_1 w) || Z.eqb p (Wheel._dir_pin_2 w)
  | ChangeDutyCycle p _ => Z.eqb p (Wheel._pwm_pin w)
  | _ => false
  end.


(** The bytes a trace wrote to the connection, in order. *)
Definition wire (tr : list event) : list byte :=
  flat_map (fun e => match e with ConnWrite data => data | _ => [] end) tr.

(** An ASCII digit, '0' to '9'. *)
Definition is_digit (b : byte) : bool :=
  ((48 <=? Byte.to_N b) && (Byte.to_N b <=? 57))%N.


(** A frame as it travels: length prefix, then payload. *)
Definition frame_bytes (frame : list byte) : list byte :=
  match pack_L (N.of_nat (List.length frame)) with
  | Some hdr => hdr ++ frame
  | None => []
  end.

Definition is_flush (e : event) : bool :=
  match e with ConnFlush => true | _ => false end.

Definition is_read (e : event) : bool :=
  match e with ConnRead _ _ => true | _ => false end.

(** The commands the client runs for a class index. *)
Definition class_commands (k : N) : list command :=
  match k with
  | 0%N => [Forward 4]
  | 1%N => [RotateLeft 4]
  | 2%N => [RotateRight 4]
  | _ => []
  end.


(** The reply byte for a class index below 10: its ASCII digit. *)
Definition reply_byte (k : N) : byte := byte_of_N (48 + k).

(** A frame the connection can carry: not empty (an empty one would read
    as the end of the session) and with a length that fits 32 bits. *)
Definition sendable (frame : list byte) : Prop :=
  frame <> [] /\ (N.of_nat (List.length frame) < 2 ^ 32)%N.

(** The four calls the server makes on the connection for one frame: it
    reads the length prefix, reads the payload, writes the digit of the
    payload's class and flushes. *)
Definition served (classify : list byte -> N) (frame : list byte) : list event :=
  match pack_L (N.of_nat (List.length frame)) with
  | Some hdr =>
      [ConnRead 4 hdr; ConnRead (N.of_nat (List.length frame)) frame;
       ConnWrite [reply_byte (classify frame)]; ConnFlush]
  | None => []
  end.



(** ** collect_data.py *)

Module Collect.

Local Open Scope act_scope.

(** A pygame event as [car_control] tells them apart. A [KEYDOWN] carries
    what [keyboard.key.get_pressed()] returns for the three arrow keys when
    the event is handled. *)
Inductive key_event :=
| KEYDOWN (K_UP K_LEFT K_RIGHT : bool)
| KEYUP
| QUIT
| OTHER.

Record state := mk {
  car : Car.t;
  key_flag : string
}.

(** [car_init] *)
Definition car_init : act Car.t :=
  front_left_wheel <- Wheel.init 33 35 37 1500 ;;
  front_right_wheel <- Wheel.init 32 31 29 1500 ;;
  rear_left_wheel <- Wheel.init 40 38 36 1500 ;;
  rear_right_wheel <- Wheel.init 15 13 11 1500 ;;
  ret (Car.mk front_left_wheel front_right_wheel
              rear_left_wheel rear_right_wheel).

(** The body of the [for event in keyboard.event.get()] loop of
    [car_control]. *)
Definition handle (event : key_event) (st : state) : act (outcome * state) :=
  match event with
  | KEYDOWN K_UP K_LEFT K_RIGHT =>
      if K_UP then
        c <- Car.move_forward 4 (car st) ;;
        emit (Print "Move forward") ;;;
        ret (Continue, mk c "f")
      else if K_LEFT then
        c <- Car.rotate_left 4 (car st) ;;
        emit (Print "Ture left") ;;;
        ret (Continue, mk c "l")
      else if K_RIGHT then
        c <- Car.rotate_right 4 (car st) ;;
        emit (Print "Ture right") ;;;
        ret (Continue, mk c "r")
      else ret (Continue, st)
  | KEYUP =>
      c <- Car.stop (car st) ;;
      emit (Print "Stop") ;;;
      ret (Continue, mk c "s")
  | QUIT => ret (Raised "SystemExit", st)
  | OTHER => ret (Continue, st)
  end.

(** [car_control] over the events the keyboard delivers, in order. *)
Fixpoint car_control (events : list key_event) (st : state)
  : act (outcome * state) :=
  match events with
  | [] => ret (Continue, st)
  | e :: es =>
      '(o, st) <- handle e st ;;
      match o with
      | Continue => car_control es st
      | _ => ret (o, st)
      end
  end.

(** The state [__main__] starts the two threads with. *)
Definition start : act state :=
  c <- car_init ;;
  ret (mk c "s").

End Collect.

(** What one keyboard event asks of the car: a command, or nothing. *)
Definition event_commands (e : Collect.key_event) : list command :=
  match e with
  | Collect.KEYDOWN true _ _ => [Forward 4]
  | Collect.KEYDOWN false true _ => [RotateLeft 4]
  | Collect.KEYDOWN false false true => [RotateRight 4]
  | Collect.KEYUP => [Halt]
  | _ => []
  end.

(** The key flag and the car's record tell the same story. *)
Definition labelled (st : Collect.state) : Prop :=
  (Collect.key_flag st = "s"%string
   /\ directions (Collect.car st) = ["s"; "s"; "s"; "s"]%string)
  \/ (Collect.key_flag st = "f"%string
      /\ directions (Collect.car st) = ["a"; "c"; "a"; "c"]%string
      /\ requests (Collect.car st) = [5.2; 5; 4.2; 4]%float)
  \/ (Collect.key_flag st = "l"%string
      /\ directions (Collect.car st) = ["c"; "c"; "c"; "c"]%string
      /\ requests (Collect.car st) = [5.2; 5; 5.2; 4]%float)
  \/ (Collect.key_flag st = "r"%string
      /\ directions (Collect.car st) = ["a"; "a"; "a"; "a"]%string
      /\ requests (Collect.car st) = [5.2; 5; 5.2; 4]%float).


(** ** Traces and the hardware view *)

Lemma last_of_default {A} (f : event -> option A) (tr : list event) (acc : option A) :
  last_of f tr acc =
  match last_of f tr None with Some a => Some a | None => acc end.
Proof.
  revert acc. induction tr as [|e tr IH]; intros acc; simpl.
  - reflexivity.
  - rewrite IH. rewrite (IH (match f e with Some a => Some a | None => None end)).
    destruct (last_of f tr None); [reflexivity|].
    destruct (f e); reflexivity.
Qed.

Lemma last_of_app {A} (f : event -> option A) (t1 t2 : list event) (acc : option A) :
  last_of f (t1 ++ t2) acc = last_of f t2 (last_of f t1 acc).
Proof.
  revert acc. induction t1 as [|e t1 IH]; intros acc; simpl; [reflexivity|].
  apply IH.
Qed.

Lemma level_of_app (t1 t2 : list event) (pin : Z) :
  level_of (t1 ++ t2) pin =
  match level_of t2 pin with Some l => Some l | None => level_of t1 pin end.
Proof.
  unfold level_of. rewrite last_of_app. apply last_of_default.
Qed.

Lemma duty_of_app (t1 t2 : list event) (pin : Z) :
  duty_of (t1 ++ t2) pin =
  match duty_of t2 pin with Some v => Some v | None => duty_of t1 pin end.
Proof.
  unfold duty_of. rewrite last_of_app. apply last_of_default.
Qed.

(** ** Wheel: what one call does *)

Lemma str_ne_false (a b : string) : Wheel.str_ne a b = false -> a = b.
Proof.
  unfold Wheel.str_ne. intros H. apply String.eqb_eq.
  destruct (String.eqb a b); [reflexivity | discriminate].
Qed.

Lemma str_ne_same (a : string) : Wheel.str_ne a a = false.
Proof. unfold Wheel.str_ne. rewrite String.eqb_refl. reflexivity. Qed.

Lemma clockwise_rotate_spec (speed : float) (w : Wheel.t) :
  Wheel.clockwise_rotate speed w =
  (Wheel.mk (Wheel._pwm_pin w) (Wheel._dir_pin_1 w) (Wheel._dir_pin_2 w)
            (Wheel._pwm_freq w) "c"
            (if Wheel.num_ne speed (Wheel._last_dc_val w)
             then speed else Wheel._last_dc_val w)
            speed,
   (if Wheel.str_ne (Wheel._last_dir w) "c"
    then [Output (Wheel._dir_pin_1 w) HIGH; Output (Wheel._dir_pin_2 w) LOW]
    else [])
   ++ (if Wheel.num_ne speed (Wheel._last_dc_val w)
       then [ChangeDutyCycle (Wheel._pwm_pin w) speed] else [])).
Proof.
  unfold Wheel.clockwise_rotate, Wheel.change_dc, bind, ret.
  destruct (Wheel.str_ne (Wheel._last_dir w) "c") eqn:Hd; simpl.
  - destruct (Wheel.num_ne speed (Wheel._last_dc_val w)); reflexivity.
  - apply str_ne_false in Hd.
    destruct (Wheel.num_ne speed (Wheel._last_dc_val w));
      unfold Wheel.set_last_dc_val, Wheel.set_current_dc_val; simpl;
      rewrite Hd; reflexivity.
Qed.

Lemma anticlockwise_rotate_spec (speed : float) (w : Wheel.t) :
  Wheel.anticlockwise_rotate speed w =
  (Wheel.mk (Wheel._pwm_pin w) (Wheel._dir_pin_1 w) (Wheel._dir_pin_2 w)
            (Wheel._pwm_freq w) "a"
            (if Wheel.num_ne speed (Wheel._last_dc_val w)
             then speed else Wheel._last_dc_val w)
            speed,
   (if Wheel.str_ne (Wheel._last_dir w) "a"
    then [Output (Wheel._dir_pin_1 w) LOW; Output (Wheel._dir_pin_2 w) HIGH]
    else [])
   ++ (if Wheel.num_ne speed (Wheel._last_dc_val w)
       then [ChangeDutyCycle (Wheel._pwm_pin w) speed] else [])).
Proof.
  unfold Wheel.anticlockwise_rotate, Wheel.change_dc, bind, ret.
  destruct (Wheel.str_ne (Wheel._last_dir w) "a") eqn:Hd; simpl.
  - destruct (Wheel.num_ne speed (Wheel._last_dc_val w)); reflexivity.
  - apply str_ne_false in Hd.
    destruct (Wheel.num_ne speed (Wheel._last_dc_val w));
      unfold Wheel.set_last_dc_val, Wheel.set_current_dc_val; simpl;
      rewrite Hd; reflexivity.
Qed.

Lemma outputs_app (t1 t2 : list event) :
  outputs (t1 ++ t2) = outputs t1 ++ outputs t2.
Proof. apply filter_app. Qed.

Lemma duty_writes_app (t1 t2 : list event) :
  duty_writes (t1 ++ t2) = duty_writes t1 ++ duty_writes t2.
Proof. apply filter_app. Qed.

(** ** Wheel: record and driver stay in step *)

Lemma level_of_two (d1 d2 : Z) (l1 l2 : level) (pin : Z) :
  level_of [Output d1 l1; Output d2 l2] pin =
  if Z.eqb d2 pin then Some l2 else if Z.eqb d1 pin then Some l1 else None.
Proof.
  unfold level_of; simpl.
  destruct (Z.eqb d2 pin); [reflexivity|].
  destruct (Z.eqb d1 pin); reflexivity.
Qed.

Lemma duty_of_two (d1 d2 : Z) (l1 l2 : level) (pin : Z) :
  duty_of [Output d1 l1; Output d2 l2] pin = None.
Proof. reflexivity. Qed.

Lemma level_of_change (p : Z) (v : float) (pin : Z) :
  level_of [ChangeDutyCycle p v] pin = None.
Proof. reflexivity. Qed.

Lemma duty_of_change (p : Z) (v : float) :
  duty_of [ChangeDutyCycle p v] p = Some v.
Proof. unfold duty_of; simpl. rewrite Z.eqb_refl. reflexivity. Qed.

Lemma level_of_nil (pin : Z) : level_of [] pin = None.
Proof. reflexivity. Qed.

Lemma duty_of_nil (pin : Z) : duty_of [] pin = None.
Proof. reflexivity. Qed.

Ltac hw_norm :=
  repeat rewrite ?level_of_app, ?duty_of_app, ?level_of_two, ?duty_of_two,
    ?level_of_change, ?duty_of_change, ?level_of_nil, ?duty_of_nil, ?Z.eqb_refl.

Lemma in_sync_settled (tr : list event) (w : Wheel.t) :
  in_sync tr w -> settled tr w.
Proof. intros [Hd Hv]. split; [exact Hv | left; exact Hd]. Qed.

Lemma init_settled (pwm d1 d2 freq : Z) :
  settled (snd (Wheel.init pwm d1 d2 freq)) (fst (Wheel.init pwm d1 d2 freq)).
Proof.
  split; simpl.
  - unfold duty_of; simpl. rewrite Z.eqb_refl. reflexivity.
  - right; reflexivity.
Qed.

Lemma do_call_pins (c : call) (w : Wheel.t) :
  Wheel._pwm_pin (fst (do_call c w)) = Wheel._pwm_pin w /\
  Wheel._dir_pin_1 (fst (do_call c w)) = Wheel._dir_pin_1 w /\
  Wheel._dir_pin_2 (fst (do_call c w)) = Wheel._dir_pin_2 w.
Proof.
  destruct c; simpl;
    rewrite ?clockwise_rotate_spec, ?anticlockwise_rotate_spec;
    simpl; auto.
Qed.

Lemma do_call_in_sync (c : call) (tr : list event) (w : Wheel.t) :
  Wheel._dir_pin_1 w <> Wheel._dir_pin_2 w ->
  settled tr w ->
  in_sync (tr ++ snd (do_call c w)) (fst (do_call c w)).
Proof.
  intros Hne [Hv Hd].
  assert (H21 : Z.eqb (Wheel._dir_pin_2 w) (Wheel._dir_pin_1 w) = false)
    by (apply Z.eqb_neq; congruence).
  destruct c as [s | s |]; simpl;
    rewrite ?clockwise_rotate_spec, ?anticlockwise_rotate_spec;
    unfold in_sync, dir_signal; simpl.
  - destruct (Wheel.str_ne (Wheel._last_dir w) "c") eqn:Ed;
      destruct (Wheel.num_ne s (Wheel._last_dc_val w)) eqn:Ev;
      hw_norm; rewrite ?H21; hw_norm; try (split; [reflexivity | auto]);
      apply str_ne_false in Ed;
      (destruct Hd as [Hd | Hd]; [| rewrite Hd in Ed; discriminate]);
      unfold dir_signal in Hd; rewrite Ed in Hd; auto.
  - destruct (Wheel.str_ne (Wheel._last_dir w) "a") eqn:Ed;
      destruct (Wheel.num_ne s (Wheel._last_dc_val w)) eqn:Ev;
      hw_norm; rewrite ?H21; hw_norm; try (split; [reflexivity | auto]);
      apply str_ne_false in Ed;
      (destruct Hd as [Hd | Hd]; [| rewrite Hd in Ed; discriminate]);
      unfold dir_signal in Hd; rewrite Ed in Hd; auto.
  - hw_norm; rewrite ?H21; hw_norm. split; [reflexivity | exact Hv].
Qed.

Lemma do_calls_snoc (cs : list call) (c : call) (w : Wheel.t) :
  do_calls (cs ++ [c]) w =
  (fst (do_call c (fst (do_calls cs w))),
   snd (do_calls cs w) ++ snd (do_call c (fst (do_calls cs w)))).
Proof.
  revert w. induction cs as [|c0 cs IH]; intros w; simpl.
  - unfold bind, ret. destruct (do_call c w) as [w1 t1]; simpl.
    rewrite app_nil_r. reflexivity.
  - unfold bind. destruct (do_call c0 w) as [w1 t1]. rewrite IH.
    destruct (do_calls cs w1) as [w2 t2]; simpl.
    rewrite app_assoc. reflexivity.
Qed.

Lemma do_calls_settled (cs : list call) (tr : list event) (w : Wheel.t) :
  Wheel._dir_pin_1 w <> Wheel._dir_pin_2 w ->
  settled tr w ->
  settled (tr ++ snd (do_calls cs w)) (fst (do_calls cs w)) /\
  Wheel._dir_pin_1 (fst (do_calls cs w)) <> Wheel._dir_pin_2 (fst (do_calls cs w)).
Proof.
  induction cs as [|c cs IH] using rev_ind; intros Hne Hs.
  - simpl. rewrite app_nil_r. auto.
  - destruct (IH Hne Hs) as [IH1 IH2]. rewrite do_calls_snoc; simpl.
    rewrite app_assoc. split.
    + apply in_sync_settled, do_call_in_sync; assumption.
    + destruct (do_call_pins c (fst (do_calls cs w))) as (_ & E1 & E2).
      rewrite E1, E2. exact IH2.
Qed.

(** ** Wheel: the claims *)

Lemma num_ne_same (s : float) :
  (s =? s)%float = true -> Wheel.num_ne s s = false.
Proof. unfold Wheel.num_ne. intros ->. reflexivity. Qed.

Lemma clockwise_again_silent (s : float) (w : Wheel.t) :
  (s =? s)%float = true ->
  snd (Wheel.clockwise_rotate s (fst (Wheel.clockwise_rotate s w))) = [].
Proof.
  intros Hs. rewrite (clockwise_rotate_spec s w); simpl.
  rewrite clockwise_rotate_spec; simpl. rewrite ?str_ne_same; simpl.
  destruct (Wheel.num_ne s (Wheel._last_dc_val w)) eqn:Ev.
  - rewrite (num_ne_same s Hs). reflexivity.
  - rewrite Ev. reflexivity.
Qed.

(** C1 (as amended). Write suppression of the rotate methods.
    - Each rotate call writes the two direction pins exactly when the
      recorded direction differs from the requested one, and writes the duty
      cycle exactly when the requested value differs ([!=]) from the recorded
      one.
    - From a freshly constructed wheel with distinct direction pins, after
      every call of any sequence of calls the record agrees with what the
      driver last received: [_last_dir] is the direction the pins signal and
      [_last_dc_val] is the duty cycle last given to the PWM channel.
    - Two clockwise calls in a row with the same number [s], on a wheel that
      was not clockwise and whose recorded duty cycle differs from [s], issue
      one pair of direction writes and one duty-cycle write in total; in any
      state the second of the two calls issues nothing.
    - A clockwise call on a clockwise wheel with a different duty cycle
      issues the duty-cycle write and nothing else. *)
Theorem wheel_write_suppression :
  (forall (w : Wheel.t) (s : float),
      outputs (snd (Wheel.clockwise_rotate s w)) =
        (if Wheel.str_ne (Wheel._last_dir w) "c"
         then [Output (Wheel._dir_pin_1 w) HIGH; Output (Wheel._dir_pin_2 w) LOW]
         else [])
      /\ outputs (snd (Wheel.anticlockwise_rotate s w)) =
        (if Wheel.str_ne (Wheel._last_dir w) "a"
         then [Output (Wheel._dir_pin_1 w) LOW; Output (Wheel._dir_pin_2 w) HIGH]
         else [])
      /\ duty_writes (snd (Wheel.clockwise_rotate s w)) =
        (if Wheel.num_ne s (Wheel._last_dc_val w)
         then [ChangeDutyCycle (Wheel._pwm_pin w) s] else [])
      /\ duty_writes (snd (Wheel.anticlockwise_rotate s w)) =
        (if Wheel.num_ne s (Wheel._last_dc_val w)
         then [ChangeDutyCycle (Wheel._pwm_pin w) s] else []))
  /\ (forall (pwm d1 d2 freq : Z) (cs : list call) (c : call),
      d1 <> d2 ->
      in_sync (snd (Wheel.init pwm d1 d2 freq)
               ++ snd (do_calls (cs ++ [c]) (fst (Wheel.init pwm d1 d2 freq))))
              (fst (do_calls (cs ++ [c]) (fst (Wheel.init pwm d1 d2 freq)))))
  /\ (forall (w : Wheel.t) (s : float),
      Wheel.str_ne (Wheel._last_dir w) "c" = true ->
      Wheel.num_ne s (Wheel._last_dc_val w) = true ->
      (s =? s)%float = true ->
      outputs (snd (do_calls [Clockwise s; Clockwise s] w)) =
        [Output (Wheel._dir_pin_1 w) HIGH; Output (Wheel._dir_pin_2 w) LOW]
      /\ duty_writes (snd (do_calls [Clockwise s; Clockwise s] w)) =
        [ChangeDutyCycle (Wheel._pwm_pin w) s])
  /\ (forall (w : Wheel.t) (s : float),
      (s =? s)%float = true ->
      snd (Wheel.clockwise_rotate s (fst (Wheel.clockwise_rotate s w))) = [])
  /\ (forall (w : Wheel.t) (s : float),
      Wheel._last_dir w = "c"%string ->
      Wheel.num_ne s (Wheel._last_dc_val w) = true ->
      snd (Wheel.clockwise_rotate s w) = [ChangeDutyCycle (Wheel._pwm_pin w) s]).
Proof.
  split; [| split; [| split; [| split]]].
  - intros w s.
    rewrite clockwise_rotate_spec, anticlockwise_rotate_spec; simpl.
    rewrite !outputs_app, !duty_writes_app.
    destruct (Wheel.str_ne (Wheel._last_dir w) "c"),
      (Wheel.str_ne (Wheel._last_dir w) "a"),
      (Wheel.num_ne s (Wheel._last_dc_val w)); simpl; auto.
  - intros pwm d1 d2 freq cs c Hne.
    rewrite do_calls_snoc. cbn [fst snd]. rewrite app_assoc.
    pose proof (do_calls_settled cs (snd (Wheel.init pwm d1 d2 freq))
                  (fst (Wheel.init pwm d1 d2 freq)) Hne (init_settled _ _ _ _))
      as [Hs Hp].
    apply do_call_in_sync; assumption.
  - intros w s Hd Hv Hs.
    replace [Clockwise s; Clockwise s] with ([Clockwise s] ++ [Clockwise s])
      by reflexivity.
    rewrite do_calls_snoc. simpl do_calls. unfold bind, ret; simpl.
    destruct (Wheel.clockwise_rotate s w) as [w1 t1] eqn:E1; simpl.
    rewrite app_nil_r.
    assert (E2 : snd (Wheel.clockwise_rotate s w1) = []).
    { replace w1 with (fst (Wheel.clockwise_rotate s w)) by (rewrite E1; reflexivity).
      apply clockwise_again_silent; exact Hs. }
    rewrite E2, app_nil_r.
    replace t1 with (snd (Wheel.clockwise_rotate s w)) by (rewrite E1; reflexivity).
    rewrite clockwise_rotate_spec; simpl. rewrite Hd, Hv. auto.
  - intros w s Hs. apply clockwise_again_silent; exact Hs.
  - intros w s Hd Hv. rewrite clockwise_rotate_spec; simpl.
    rewrite Hd, Hv. reflexivity.
Qed.

Lemma wheel_write_suppression_witness :
  outputs (snd (do_calls [Clockwise 4; Clockwise 4] fresh_wheel)) =
    [Output 35 HIGH; Output 37 LOW]
  /\ duty_writes (snd (do_calls [Clockwise 4; Clockwise 4] fresh_wheel)) =
    [ChangeDutyCycle 33 4]
  /\ in_sync (snd (Wheel.init 33 35 37 1500)
              ++ snd (do_calls ([Clockwise 4] ++ [Anticlockwise 4])
                               (fst (Wheel.init 33 35 37 1500))))
             (fst (do_calls ([Clockwise 4] ++ [Anticlockwise 4])
                            (fst (Wheel.init 33 35 37 1500)))).
Proof.
  destruct wheel_write_suppression as (_ & Hseq & Htwice & _ & _).
  destruct (Htwice fresh_wheel 4%float) as [Ho Hd];
    [reflexivity | reflexivity | reflexivity |].
  split; [exact Ho | split; [exact Hd |]].
  apply Hseq. discriminate.
Defined.

(** C1, the claim as stated fails: on the freshly constructed wheel, whose
    recorded duty cycle is 0, two [clockwise_rotate(0)] calls in a row issue
    the pair of direction writes and no duty-cycle write at all. *)
Lemma rotate_zero_twice_no_duty_write :
  snd (do_calls [Clockwise 0; Clockwise 0] fresh_wheel) =
    [Output 35 HIGH; Output 37 LOW]
  /\ List.length (duty_writes (snd (do_calls [Clockwise 0; Clockwise 0] fresh_wheel)))
     = 0%nat.
Proof. split; reflexivity. Qed.

Lemma clockwise_rotate_on_spec
      (driver : float -> option string) (speed : float) (w : Wheel.t) :
  clockwise_rotate_on driver speed w =
  (if Wheel.num_ne speed (Wheel._last_dc_val w)
   then match driver speed with
        | None => (Continue, fst (Wheel.clockwise_rotate speed w))
        | Some exc =>
            (Raised exc,
             Wheel.mk (Wheel._pwm_pin w) (Wheel._dir_pin_1 w) (Wheel._dir_pin_2 w)
                      (Wheel._pwm_freq w) "c" (Wheel._last_dc_val w) speed)
        end
   else (Continue, fst (Wheel.clockwise_rotate speed w)),
   snd (Wheel.clockwise_rotate speed w)).
Proof.
  rewrite clockwise_rotate_spec.
  unfold clockwise_rotate_on, change_dc_on, bind, ret, emit.
  destruct (Wheel.str_ne (Wheel._last_dir w) "c") eqn:Hd; cbn.
  - destruct (Wheel.num_ne speed (Wheel._last_dc_val w)); [| reflexivity].
    destruct (driver speed); reflexivity.
  - apply str_ne_false in Hd.
    destruct (Wheel.num_ne speed (Wheel._last_dc_val w));
      [destruct (driver speed) |];
      unfold Wheel.set_last_dc_val, Wheel.set_current_dc_val; cbn;
      rewrite Hd; reflexivity.
Qed.

Lemma anticlockwise_rotate_on_spec
      (driver : float -> option string) (speed : float) (w : Wheel.t) :
  anticlockwise_rotate_on driver speed w =
  (if Wheel.num_ne speed (Wheel._last_dc_val w)
   then match driver speed with
        | None => (Continue, fst (Wheel.anticlockwise_rotate speed w))
        | Some exc =>
            (Raised exc,
             Wheel.mk (Wheel._pwm_pin w) (Wheel._dir_pin_1 w) (Wheel._dir_pin_2 w)
                      (Wheel._pwm_freq w) "a" (Wheel._last_dc_val w) speed)
        end
   else (Continue, fst (Wheel.anticlockwise_rotate speed w)),
   snd (Wheel.anticlockwise_rotate speed w)).
Proof.
  rewrite anticlockwise_rotate_spec.
  unfold anticlockwise_rotate_on, change_dc_on, bind, ret, emit.
  destruct (Wheel.str_ne (Wheel._last_dir w) "a") eqn:Hd; cbn.
  - destruct (Wheel.num_ne speed (Wheel._last_dc_val w)); [| reflexivity].
    destruct (driver speed); reflexivity.
  - apply str_ne_false in Hd.
    destruct (Wheel.num_ne speed (Wheel._last_dc_val w));
      [destruct (driver speed) |];
      unfold Wheel.set_last_dc_val, Wheel.set_current_dc_val; cbn;
      rewrite Hd; reflexivity.
Qed.

(** C2 (as amended). What the rotate methods do with the requested duty
    cycle, whatever the driver does with it.
    - The wheel clamps nothing and reports nothing. The driver's
      [ChangeDutyCycle] is called exactly when the requested value differs
      from the recorded one, and then with the requested value itself,
      whether or not it lies in [0, 100]; the only other calls of the
      method are the two direction writes, and nothing is printed.
    - Execution continues exactly when no duty-cycle call was needed or the
      driver's call returns: the method then ends normally, and after a call
      [_last_dc_val] holds the requested value. When the driver raises, its
      exception leaves the method and [_last_dc_val] keeps its old value.
    - With a driver that accepts every value of the range 0.0 - 100.0, a
      request in that range is passed on unmodified and execution
      continues. *)
Theorem duty_cycle_passed_unclamped
        (driver : float -> option string) (w : Wheel.t) (s : float) :
  let cw := clockwise_rotate_on driver s w in
  let acw := anticlockwise_rotate_on driver s w in
  let needed := Wheel.num_ne s (Wheel._last_dc_val w) in
  snd cw =
    (if Wheel.str_ne (Wheel._last_dir w) "c"
     then [Output (Wheel._dir_pin_1 w) HIGH; Output (Wheel._dir_pin_2 w) LOW]
     else [])
    ++ (if needed then [ChangeDutyCycle (Wheel._pwm_pin w) s] else [])
  /\ snd acw =
    (if Wheel.str_ne (Wheel._last_dir w) "a"
     then [Output (Wheel._dir_pin_1 w) LOW; Output (Wheel._dir_pin_2 w) HIGH]
     else [])
    ++ (if needed then [ChangeDutyCycle (Wheel._pwm_pin w) s] else [])
  /\ snd cw = snd (Wheel.clockwise_rotate s w)
  /\ snd acw = snd (Wheel.anticlockwise_rotate s w)
  /\ filter is_print (snd cw) = []
  /\ filter is_print (snd acw) = []
  /\ (fst (fst cw) = Continue <-> needed = false \/ driver s = None)
  /\ (fst (fst acw) = Continue <-> needed = false \/ driver s = None)
  /\ (needed = false \/ driver s = None ->
      fst cw = (Continue, fst (Wheel.clockwise_rotate s w))
      /\ fst acw = (Continue, fst (Wheel.anticlockwise_rotate s w))
      /\ Wheel._last_dc_val (snd (fst cw))
         = (if needed then s else Wheel._last_dc_val w)
      /\ Wheel._last_dc_val (snd (fst acw))
         = (if needed then s else Wheel._last_dc_val w))
  /\ (forall exc : string,
      needed = true -> driver s = Some exc ->
      fst (fst cw) = Raised exc
      /\ fst (fst acw) = Raised exc
      /\ Wheel._last_dc_val (snd (fst cw)) = Wheel._last_dc_val w
      /\ Wheel._last_dc_val (snd (fst acw)) = Wheel._last_dc_val w
      /\ Wheel._current_dc_val (snd (fst cw)) = s
      /\ Wheel._current_dc_val (snd (fst acw)) = s)
  /\ ((forall v, documented_range v = true -> driver v = None) ->
      documented_range s = true ->
      fst (fst cw) = Continue
      /\ fst (fst acw) = Continue
      /\ duty_writes (snd cw)
         = (if needed then [ChangeDutyCycle (Wheel._pwm_pin w) s] else [])
      /\ duty_writes (snd acw)
         = (if needed then [ChangeDutyCycle (Wheel._pwm_pin w) s] else [])).
Proof.
  intros cw acw needed. subst cw acw needed.
  rewrite clockwise_rotate_on_spec, anticlockwise_rotate_on_spec.
  rewrite clockwise_rotate_spec, anticlockwise_rotate_spec.
  cbn [fst snd].
  destruct (Wheel.num_ne s (Wheel._last_dc_val w)) eqn:En;
    destruct (driver s) as [exc0 |] eqn:Ed;
    cbn [fst snd Wheel._last_dc_val Wheel._current_dc_val];
    (split; [reflexivity |]); (split; [reflexivity |]);
    (split; [reflexivity |]); (split; [reflexivity |]);
    (split; [destruct (Wheel.str_ne (Wheel._last_dir w) "c"); reflexivity |]);
    (split; [destruct (Wheel.str_ne (Wheel._last_dir w) "a"); reflexivity |]).
  - split; [| split; [| split; [| split]]].
    + split; [discriminate | intros [H | H]; discriminate].
    + split; [discriminate | intros [H | H]; discriminate].
    + intros [H | H]; discriminate.
    + intros exc _ Hexc. injection Hexc as <-. repeat split; reflexivity.
    + intros Hacc Hr. rewrite (Hacc s Hr) in Ed. discriminate.
  - split; [| split; [| split; [| split]]].
    + split; auto.
    + split; auto.
    + intros _. repeat split; reflexivity.
    + intros exc _ Hexc. discriminate.
    + intros _ _. rewrite !duty_writes_app.
      destruct (Wheel.str_ne (Wheel._last_dir w) "c"),
        (Wheel.str_ne (Wheel._last_dir w) "a"); repeat split; reflexivity.
  - split; [| split; [| split; [| split]]].
    + split; auto.
    + split; auto.
    + intros _. repeat split; reflexivity.
    + intros exc Hn. discriminate.
    + intros _ _. rewrite !duty_writes_app.
      destruct (Wheel.str_ne (Wheel._last_dir w) "c"),
        (Wheel.str_ne (Wheel._last_dir w) "a"); repeat split; reflexivity.
  - split; [| split; [| split; [| split]]].
    + split; auto.
    + split; auto.
    + intros _. repeat split; reflexivity.
    + intros exc Hn. discriminate.
    + intros _ _. rewrite !duty_writes_app.
      destruct (Wheel.str_ne (Wheel._last_dir w) "c"),
        (Wheel.str_ne (Wheel._last_dir w) "a"); repeat split; reflexivity.
Qed.

Lemma duty_cycle_passed_unclamped_witness :
  let strict := fun v : float =>
                  if documented_range v then None else Some "ValueError"%string in
  (* in range: passed on as it is, and the method returns *)
  (documented_range 50 = true
   /\ fst (fst (clockwise_rotate_on strict 50 fresh_wheel)) = Continue
   /\ duty_writes (snd (clockwise_rotate_on strict 50 fresh_wheel))
      = [ChangeDutyCycle 33 50])
  (* out of range, a driver that refuses: 150 is what it is given *)
  /\ (documented_range 150 = false
      /\ fst (fst (clockwise_rotate_on strict 150 fresh_wheel))
         = Raised "ValueError"
      /\ Wheel._last_dc_val (snd (fst (clockwise_rotate_on strict 150 fresh_wheel)))
         = 0%float)
  (* out of range, a driver that accepts: the method returns *)
  /\ fst (anticlockwise_rotate_on (fun _ => None) (-7) fresh_wheel)
     = (Continue, fst (Wheel.anticlockwise_rotate (-7) fresh_wheel)).
Proof.
  cbv zeta.
  pose (strict := fun v : float =>
                    if documented_range v then None else Some "ValueError"%string).
  split; [| split].
  - destruct (duty_cycle_passed_unclamped strict fresh_wheel 50)
      as (_ & _ & _ & _ & _ & _ & _ & _ & _ & _ & Hin).
    destruct Hin as (Hc & _ & Hd & _).
    + intros v Hv. unfold strict. rewrite Hv. reflexivity.
    + reflexivity.
    + split; [reflexivity | split; [exact Hc | exact Hd]].
  - destruct (duty_cycle_passed_unclamped strict fresh_wheel 150)
      as (_ & _ & _ & _ & _ & _ & _ & _ & _ & Hraise & _).
    destruct (Hraise "ValueError"%string eq_refl eq_refl)
      as (Hc & _ & Hl & _).
    split; [reflexivity | split; [exact Hc | exact Hl]].
  - destruct (duty_cycle_passed_unclamped (fun _ => None) fresh_wheel (-7))
      as (_ & _ & _ & _ & _ & _ & _ & _ & Hret & _).
    apply Hret. right. reflexivity.
Defined.

(** C2, the claim as stated fails: a request of 150 on the freshly
    constructed wheel is handed to the driver as 150, not as the clamped
    100, whatever the driver then answers, and nothing is reported. *)
Lemma duty_150_not_clamped :
  snd (Wheel.clockwise_rotate 150 fresh_wheel) =
    [Output 35 HIGH; Output 37 LOW; ChangeDutyCycle 33 150]
  /\ (forall driver : float -> option string,
      snd (clockwise_rotate_on driver 150 fresh_wheel) =
        [Output 35 HIGH; Output 37 LOW; ChangeDutyCycle 33 150])
  /\ spec_clamp 150 = 100%float
  /\ (150 =? spec_clamp 150)%float = false.
Proof.
  split; [reflexivity |]. split; [| split; reflexivity].
  intros driver. rewrite clockwise_rotate_on_spec. reflexivity.
Qed.

(** C7. In any state, [stop()] writes both direction pins high, so that
    afterwards the driver holds both high, sets [_last_dir] to "s", leaves
    [_last_dc_val] as it was and issues no duty-cycle write: the PWM channel
    keeps the duty cycle it had. *)
Theorem stop_brakes_and_keeps_duty (tr : list event) (w : Wheel.t) :
  snd (Wheel.stop w) =
    [Output (Wheel._dir_pin_1 w) HIGH; Output (Wheel._dir_pin_2 w) HIGH]
  /\ level_of (tr ++ snd (Wheel.stop w)) (Wheel._dir_pin_1 w) = Some HIGH
  /\ level_of (tr ++ snd (Wheel.stop w)) (Wheel._dir_pin_2 w) = Some HIGH
  /\ Wheel._last_dir (fst (Wheel.stop w)) = "s"%string
  /\ Wheel._last_dc_val (fst (Wheel.stop w)) = Wheel._last_dc_val w
  /\ duty_writes (snd (Wheel.stop w)) = []
  /\ duty_of (tr ++ snd (Wheel.stop w)) (Wheel._pwm_pin w)
     = duty_of tr (Wheel._pwm_pin w).
Proof.
  unfold Wheel.stop; simpl. hw_norm.
  destruct (Z.eqb (Wheel._dir_pin_2 w) (Wheel._dir_pin_1 w));
    repeat split; reflexivity.
Qed.

(** C8 (as amended). Suppression belongs to the rotate methods only:
    [stop()] writes both direction pins high on every call, whatever
    [_last_dir] is, also when it is already "s"; a rotate call in the
    direction already recorded writes no direction pin. *)
Theorem stop_always_writes (w : Wheel.t) :
  outputs (snd (Wheel.stop w)) =
    [Output (Wheel._dir_pin_1 w) HIGH; Output (Wheel._dir_pin_2 w) HIGH]
  /\ outputs (snd (Wheel.stop (fst (Wheel.stop w)))) =
    [Output (Wheel._dir_pin_1 w) HIGH; Output (Wheel._dir_pin_2 w) HIGH]
  /\ (forall s, Wheel._last_dir w = "c"%string ->
                outputs (snd (Wheel.clockwise_rotate s w)) = [])
  /\ (forall s, Wheel._last_dir w = "a"%string ->
                outputs (snd (Wheel.anticlockwise_rotate s w)) = []).
Proof.
  repeat split.
  - intros s Hd. rewrite clockwise_rotate_spec; simpl. rewrite Hd; simpl.
    destruct (Wheel.num_ne s (Wheel._last_dc_val w)); reflexivity.
  - intros s Hd. rewrite anticlockwise_rotate_spec; simpl. rewrite Hd; simpl.
    destruct (Wheel.num_ne s (Wheel._last_dc_val w)); reflexivity.
Qed.

Lemma stop_always_writes_witness :
  outputs (snd (Wheel.clockwise_rotate 9 (fst (Wheel.clockwise_rotate 4 fresh_wheel))))
  = [].
Proof.
  apply (proj1 (proj2 (proj2
           (stop_always_writes (fst (Wheel.clockwise_rotate 4 fresh_wheel)))))).
  reflexivity.
Defined.

(** C8, the claim as stated fails: the freshly constructed wheel records
    "s", and [stop()] on it still writes both direction pins. *)
Lemma stop_on_stopped_wheel_writes :
  Wheel._last_dir fresh_wheel = "s"%string
  /\ snd (Wheel.stop fresh_wheel) = [Output 35 HIGH; Output 37 HIGH].
Proof. split; reflexivity. Qed.

(** ** Car: the per-wheel mapping of the commands *)

Lemma bind_eq {A B} (m : act A) (k : A -> act B) :
  bind m k = (fst (k (fst m)), snd m ++ snd (k (fst m))).
Proof.
  unfold bind. destruct m as [a t1]; simpl. destruct (k a); reflexivity.
Qed.

Lemma move_forward_spec (speed : float) (car : Car.t) :
  Car.move_forward speed car =
  (Car.mk
     (fst (Wheel.anticlockwise_rotate (speed + LEFT_FR_BIAS + LEFT_RIGHT_BIAS)
             (Car._front_left_wheel car)))
     (fst (Wheel.clockwise_rotate (speed + RIGHT_FR_BIAS)
             (Car._front_right_wheel car)))
     (fst (Wheel.anticlockwise_rotate (speed + LEFT_RIGHT_BIAS)
             (Car._rear_left_wheel car)))
     (fst (Wheel.clockwise_rotate speed (Car._rear_right_wheel car))),
   snd (Wheel.anticlockwise_rotate (speed + LEFT_FR_BIAS + LEFT_RIGHT_BIAS)
          (Car._front_left_wheel car))
   ++ snd (Wheel.clockwise_rotate (speed + RIGHT_FR_BIAS)
             (Car._front_right_wheel car))
   ++ snd (Wheel.anticlockwise_rotate (speed + LEFT_RIGHT_BIAS)
             (Car._rear_left_wheel car))
   ++ snd (Wheel.clockwise_rotate speed (Car._rear_right_wheel car))).
Proof.
  unfold Car.move_forward. rewrite !bind_eq. unfold ret; simpl.
  rewrite app_nil_r. reflexivity.
Qed.

Lemma rotate_left_spec (speed : float) (car : Car.t) :
  Car.rotate_left speed car =
  (Car.mk
     (fst (Wheel.clockwise_rotate (speed + LEFT_FR_BIAS + LEFT_RIGHT_BIAS)
             (Car._front_left_wheel car)))
     (fst (Wheel.clockwise_rotate (speed + RIGHT_FR_BIAS)
             (Car._front_right_wheel car)))
     (fst (Wheel.clockwise_rotate (speed + 1 + LEFT_RIGHT_BIAS)
             (Car._rear_left_wheel car)))
     (fst (Wheel.clockwise_rotate speed (Car._rear_right_wheel car))),
   snd (Wheel.clockwise_rotate (speed + LEFT_FR_BIAS + LEFT_RIGHT_BIAS)
          (Car._front_left_wheel car))
   ++ snd (Wheel.clockwise_rotate (speed + RIGHT_FR_BIAS)
             (Car._front_right_wheel car))
   ++ snd (Wheel.clockwise_rotate (speed + 1 + LEFT_RIGHT_BIAS)
             (Car._rear_left_wheel car))
   ++ snd (Wheel.clockwise_rotate speed (Car._rear_right_wheel car))).
Proof.
  unfold Car.rotate_left. rewrite !bind_eq. unfold ret; simpl.
  rewrite app_nil_r. reflexivity.
Qed.

Lemma rotate_right_spec (speed : float) (car : Car.t) :
  Car.rotate_right speed car =
  (Car.mk
     (fst (Wheel.anticlockwise_rotate (speed + LEFT_FR_BIAS + LEFT_RIGHT_BIAS)
             (Car._front_left_wheel car)))
     (fst (Wheel.anticlockwise_rotate (speed + RIGHT_FR_BIAS)
             (Car._front_right_wheel car)))
     (fst (Wheel.anticlockwise_rotate (speed + 1 + LEFT_RIGHT_BIAS)
             (Car._rear_left_wheel car)))
     (fst (Wheel.anticlockwise_rotate speed (Car._rear_right_wheel car))),
   snd (Wheel.anticlockwise_rotate (speed + LEFT_FR_BIAS + LEFT_RIGHT_BIAS)
          (Car._front_left_wheel car))
   ++ snd (Wheel.anticlockwise_rotate (speed + RIGHT_FR_BIAS)
             (Car._front_right_wheel car))
   ++ snd (Wheel.anticlockwise_rotate (speed + 1 + LEFT_RIGHT_BIAS)
             (Car._rear_left_wheel car))
   ++ snd (Wheel.anticlockwise_rotate speed (Car._rear_right_wheel car))).
Proof.
  unfold Car.rotate_right. rewrite !bind_eq. unfold ret; simpl.
  rewrite app_nil_r. reflexivity.
Qed.

Lemma clockwise_rotate_requests (speed : float) (w : Wheel.t) :
  Wheel._last_dir (fst (Wheel.clockwise_rotate speed w)) = "c"%string /\
  Wheel._current_dc_val (fst (Wheel.clockwise_rotate speed w)) = speed.
Proof. rewrite clockwise_rotate_spec. split; reflexivity. Qed.

Lemma anticlockwise_rotate_requests (speed : float) (w : Wheel.t) :
  Wheel._last_dir (fst (Wheel.anticlockwise_rotate speed w)) = "a"%string /\
  Wheel._current_dc_val (fst (Wheel.anticlockwise_rotate speed w)) = speed.
Proof. rewrite anticlockwise_rotate_spec. split; reflexivity. Qed.

(** C6. [move_forward(speed)] turns the front-left and rear-left wheels
    anticlockwise and the front-right and rear-right wheels clockwise, and
    requests for each its own sum of [speed] and bias terms; with speed 4
    and the constants of [car.py] the requests are 5.2, 5, 4.2 and 4, which
    on the freshly constructed car are the values the four PWM channels
    receive. *)
Theorem move_forward_bias :
  (forall (speed : float) (car : Car.t),
      let car' := fst (Car.move_forward speed car) in
      Wheel._last_dir (Car._front_left_wheel car') = "a"%string
      /\ Wheel._last_dir (Car._front_right_wheel car') = "c"%string
      /\ Wheel._last_dir (Car._rear_left_wheel car') = "a"%string
      /\ Wheel._last_dir (Car._rear_right_wheel car') = "c"%string
      /\ Wheel._current_dc_val (Car._front_left_wheel car')
         = (speed + LEFT_FR_BIAS + LEFT_RIGHT_BIAS)%float
      /\ Wheel._current_dc_val (Car._front_right_wheel car')
         = (speed + RIGHT_FR_BIAS)%float
      /\ Wheel._current_dc_val (Car._rear_left_wheel car')
         = (speed + LEFT_RIGHT_BIAS)%float
      /\ Wheel._current_dc_val (Car._rear_right_wheel car') = speed)
  /\ (LEFT_FR_BIAS = 1%float /\ RIGHT_FR_BIAS = 1%float
      /\ LEFT_RIGHT_BIAS = 0.2%float)
  /\ (forall car : Car.t,
      let car' := fst (Car.move_forward 4 car) in
      Wheel._current_dc_val (Car._front_left_wheel car') = 5.2%float
      /\ Wheel._current_dc_val (Car._front_right_wheel car') = 5%float
      /\ Wheel._current_dc_val (Car._rear_left_wheel car') = 4.2%float
      /\ Wheel._current_dc_val (Car._rear_right_wheel car') = 4%float)
  /\ snd (Car.move_forward 4 fresh_car) =
     [Output 35 LOW; Output 37 HIGH; ChangeDutyCycle 33 5.2;
      Output 31 HIGH; Output 29 LOW; ChangeDutyCycle 32 5;
      Output 38 LOW; Output 36 HIGH; ChangeDutyCycle 40 4.2;
      Output 13 HIGH; Output 11 LOW; ChangeDutyCycle 15 4].
Proof.
  split; [| split; [| split]].
  - intros speed car car'. subst car'. rewrite move_forward_spec; simpl.
    repeat split;
      first [ apply clockwise_rotate_requests
            | apply anticlockwise_rotate_requests ].
  - repeat split; reflexivity.
  - intros car car'. subst car'. rewrite move_forward_spec; simpl.
    rewrite !(proj2 (clockwise_rotate_requests _ _)),
      !(proj2 (anticlockwise_rotate_requests _ _)).
    repeat split; reflexivity.
  - reflexivity.
Qed.

(** ** Client: one pass of the capture loop *)

Lemma iteration_spec (frame : list byte) (st : Client.state) (hdr : list byte) :
  pack_L (N.of_nat (List.length frame)) = Some hdr ->
  Client.iteration frame st =
  match Client.decode_utf8 (firstn 1 (Client.inbuf st)) with
  | None =>
      ((Raised "UnicodeDecodeError",
        Client.mk (Client.my_car st) (skipn 1 (Client.inbuf st))
                  (Client.count st + 1)),
       [Capture frame; ConnWrite hdr; ConnFlush; ConnWrite frame;
        ConnRead 1 (firstn 1 (Client.inbuf st))])
  | Some key =>
      ((Continue,
        Client.mk (fst (Client.dispatch key (Client.my_car st)))
                  (skipn 1 (Client.inbuf st)) (Client.count st + 1)),
       [Capture frame; ConnWrite hdr; ConnFlush; ConnWrite frame;
        ConnRead 1 (firstn 1 (Client.inbuf st))]
       ++ snd (Client.dispatch key (Client.my_car st)))
  end.
Proof.
  intros Hp. unfold Client.iteration. rewrite Hp.
  rewrite !bind_eq. unfold emit, conn_read. cbn [fst snd].
  change (N.to_nat 1) with 1%nat.
  destruct (Client.decode_utf8 (firstn 1 (Client.inbuf st))) as [key|].
  - rewrite bind_eq. unfold ret. cbn [fst snd app].
    rewrite app_nil_r. reflexivity.
  - reflexivity.
Qed.

Lemma loop_cons (frame : list byte) (frames : list (list byte)) (st : Client.state) :
  Client.loop (frame :: frames) st =
  match fst (fst (Client.iteration frame st)) with
  | Continue =>
      (fst (Client.loop frames (snd (fst (Client.iteration frame st)))),
       snd (Client.iteration frame st)
       ++ snd (Client.loop frames (snd (fst (Client.iteration frame st)))))
  | o => ((o, snd (fst (Client.iteration frame st))),
          snd (Client.iteration frame st))
  end.
Proof.
  simpl. rewrite bind_eq.
  destruct (Client.iteration frame st) as [[o st'] tr]; simpl.
  destruct o; unfold ret; simpl; rewrite ?app_nil_r; reflexivity.
Qed.

Lemma dispatch_zero (car : Car.t) :
  Client.dispatch "0" car =
  (fst (Car.move_forward 4 car),
   Print "Move forward" :: snd (Car.move_forward 4 car)).
Proof.
  unfold Client.dispatch. change (String.eqb "0" "0") with true. cbv iota.
  rewrite bind_eq. reflexivity.
Qed.

Lemma dispatch_one (car : Car.t) :
  Client.dispatch "1" car =
  (fst (Car.rotate_left 4 car),
   snd (Car.rotate_left 4 car) ++ [Print "Turn left"]).
Proof.
  unfold Client.dispatch. change (String.eqb "1" "0") with false.
  change (String.eqb "1" "1") with true. cbv iota.
  rewrite !bind_eq. reflexivity.
Qed.

Lemma dispatch_two (car : Car.t) :
  Client.dispatch "2" car =
  (fst (Car.rotate_right 4 car),
   snd (Car.rotate_right 4 car) ++ [Print "Turn right"]).
Proof.
  unfold Client.dispatch. change (String.eqb "2" "0") with false.
  change (String.eqb "2" "1") with false.
  change (String.eqb "2" "2") with true. cbv iota.
  rewrite !bind_eq. reflexivity.
Qed.

Lemma dispatch_other (key : string) (car : Car.t) :
  String.eqb key "0" = false ->
  String.eqb key "1" = false ->
  String.eqb key "2" = false ->
  Client.dispatch key car = (car, []).
Proof.
  intros H0 H1 H2. unfold Client.dispatch. rewrite H0, H1, H2. reflexivity.
Qed.

Lemma dispatch_cases (key : string) (car : Car.t) :
  (key = "0"%string /\ Client.dispatch key car =
     (fst (Car.move_forward 4 car),
      Print "Move forward" :: snd (Car.move_forward 4 car)))
  \/ (key = "1"%string /\ Client.dispatch key car =
     (fst (Car.rotate_left 4 car),
      snd (Car.rotate_left 4 car) ++ [Print "Turn left"]))
  \/ (key = "2"%string /\ Client.dispatch key car =
     (fst (Car.rotate_right 4 car),
      snd (Car.rotate_right 4 car) ++ [Print "Turn right"]))
  \/ (key <> "0"%string /\ key <> "1"%string /\ key <> "2"%string
      /\ Client.dispatch key car = (car, [])).
Proof.
  destruct (String.eqb key "0") eqn:E0.
  { apply String.eqb_eq in E0; subst. left. split; [reflexivity | apply dispatch_zero]. }
  destruct (String.eqb key "1") eqn:E1.
  { apply String.eqb_eq in E1; subst. right; left.
    split; [reflexivity | apply dispatch_one]. }
  destruct (String.eqb key "2") eqn:E2.
  { apply String.eqb_eq in E2; subst. right; right; left.
    split; [reflexivity | apply dispatch_two]. }
  right; right; right.
  repeat split; try (apply String.eqb_neq; assumption).
  apply dispatch_other; assumption.
Qed.

(** The text a single decision byte decodes to is one of the recognised
    keys only for the bytes '0', '1' and '2'. *)
Lemma decode_unrecognized (b : byte) (key : string) :
  b <> "0"%byte -> b <> "1"%byte -> b <> "2"%byte ->
  Client.decode_utf8 [b] = Some key ->
  String.eqb key "0" = false /\ String.eqb key "1" = false
  /\ String.eqb key "2" = false.
Proof.
  intros H0 H1 H2 Hk.
  destruct b; try congruence; simpl in Hk; try discriminate;
    injection Hk as <-; repeat split; reflexivity.
Qed.

Lemma decode_ascii (b : byte) :
  (Byte.to_N b < 128)%N ->
  Client.decode_utf8 [b] = Some (String (ascii_of_byte b) EmptyString).
Proof.
  intros Hb. unfold Client.decode_utf8.
  apply N.ltb_lt in Hb. rewrite Hb. reflexivity.
Qed.

(** ** Client: the claims on one pass *)

(** C5 (as amended). When the decision byte read is none of '0', '1', '2',
    the pass calls nothing on the car: the car is unchanged, no GPIO or PWM
    call is made and nothing is printed. When moreover the byte is below
    0x80 (so that it decodes as UTF-8), the pass ends normally, the byte is
    consumed, and the loop goes on to the next frame. *)
Theorem unrecognized_decision_no_actuation
  (frame : list byte) (st : Client.state) (b : byte) (rest hdr : list byte) :
  pack_L (N.of_nat (List.length frame)) = Some hdr ->
  Client.inbuf st = b :: rest ->
  b <> "0"%byte -> b <> "1"%byte -> b <> "2"%byte ->
  Client.my_car (snd (fst (Client.iteration frame st))) = Client.my_car st
  /\ filter is_gpio (snd (Client.iteration frame st)) = []
  /\ filter is_print (snd (Client.iteration frame st)) = []
  /\ ((Byte.to_N b < 128)%N ->
      fst (fst (Client.iteration frame st)) = Continue
      /\ Client.inbuf (snd (fst (Client.iteration frame st))) = rest
      /\ forall frames,
          fst (Client.loop (frame :: frames) st) =
          fst (Client.loop frames (snd (fst (Client.iteration frame st))))).
Proof.
  intros Hp Hin H0 H1 H2.
  pose proof (iteration_spec frame st hdr Hp) as E.
  rewrite Hin in E. cbn [firstn skipn] in E.
  destruct (Client.decode_utf8 [b]) as [key|] eqn:Hk.
  - destruct (decode_unrecognized b key H0 H1 H2 Hk) as (E0 & E1 & E2).
    rewrite (dispatch_other key _ E0 E1 E2) in E. cbn [fst snd] in E.
    split; [| split; [| split]]; try (rewrite E; reflexivity).
    intros _. split; [| split]; try (rewrite E; reflexivity).
    intros frames. rewrite loop_cons, E. reflexivity.
  - split; [| split; [| split]]; try (rewrite E; reflexivity).
    intros Hascii. rewrite (decode_ascii b Hascii) in Hk. discriminate.
Qed.

Lemma unrecognized_decision_no_actuation_witness :
  Client.my_car (snd (fst (Client.iteration ["001"%byte]
                             (Client.mk fresh_car ["7"%byte; "0"%byte] 0))))
  = fresh_car
  /\ fst (fst (Client.iteration ["001"%byte]
                 (Client.mk fresh_car ["7"%byte; "0"%byte] 0))) = Continue.
Proof.
  pose proof (unrecognized_decision_no_actuation
                ["001"%byte] (Client.mk fresh_car ["7"%byte; "0"%byte] 0)
                "7"%byte ["0"%byte]
                ["001"%byte; "000"%byte; "000"%byte; "000"%byte]
                eq_refl eq_refl) as H.
  destruct H as (Hcar & _ & _ & Hcont); try discriminate.
  split; [exact Hcar |].
  apply Hcont. reflexivity.
Defined.

(** C5, the claim as stated fails: the byte 0xFF is outside '0', '1', '2',
    but [decode('utf-8')] raises on it, so the pass ends with an exception
    that leaves the loop instead of continuing with the next frame. *)
Lemma undecodable_decision_ends_session :
  fst (fst (Client.iteration ["001"%byte] (Client.mk fresh_car ["255"%byte] 0)))
  = Raised "UnicodeDecodeError"
  /\ fst (fst (Client.loop [["001"%byte]; ["002"%byte]]
                 (Client.mk fresh_car ["255"%byte; "0"%byte] 0)))
     = Raised "UnicodeDecodeError"
  /\ filter (fun e => match e with Capture _ => true | _ => false end)
       (snd (Client.loop [["001"%byte]; ["002"%byte]]
               (Client.mk fresh_car ["255"%byte; "0"%byte] 0)))
     = [Capture ["001"%byte]].
Proof. repeat split; reflexivity. Qed.

(** ** The length prefix *)

Lemma to_N_byte_of_N (n : N) : Byte.to_N (byte_of_N n) = (n mod 256)%N.
Proof.
  unfold byte_of_N.
  destruct (Byte.of_N (n mod 256)) as [b|] eqn:E.
  - apply Byte.to_of_N. exact E.
  - apply Byte.of_N_None_iff in E.
    pose proof (N.mod_upper_bound n 256) as Hb. lia.
Qed.

Lemma le_digits (n : N) :
  (n < 2 ^ 32)%N ->
  (n mod 256 + 256 * ((n / 256) mod 256) + 65536 * ((n / 65536) mod 256)
   + 16777216 * ((n / 16777216) mod 256))%N = n.
Proof.
  intros Hn. change (2 ^ 32)%N with 4294967296%N in Hn.
  assert (E2 : (n / 65536 = n / 256 / 256)%N)
    by (rewrite N.Div0.div_div; reflexivity).
  assert (E3 : (n / 16777216 = n / 65536 / 256)%N)
    by (rewrite N.Div0.div_div; reflexivity).
  pose proof (N.div_mod n 256) as D1.
  pose proof (N.div_mod (n / 256) 256) as D2.
  pose proof (N.div_mod (n / 65536) 256) as D3.
  pose proof (N.div_mod (n / 16777216) 256) as D4.
  pose proof (N.mod_upper_bound n 256) as B1.
  pose proof (N.mod_upper_bound (n / 256) 256) as B2.
  pose proof (N.mod_upper_bound (n / 65536) 256) as B3.
  pose proof (N.mod_upper_bound (n / 16777216) 256) as B4.
  rewrite <- E2 in D2. rewrite <- E3 in D3.
  assert (Hnz : 256%N <> 0%N) by discriminate.
  specialize (D1 Hnz); specialize (D2 Hnz); specialize (D3 Hnz);
    specialize (D4 Hnz); specialize (B1 Hnz); specialize (B2 Hnz);
    specialize (B3 Hnz); specialize (B4 Hnz).
  clear E2 E3.
  generalize dependent (n mod 256)%N; intros r1 D1 B1.
  generalize dependent ((n / 256) mod 256)%N; intros r2 D2 B2.
  generalize dependent ((n / 65536) mod 256)%N; intros r3 D3 B3.
  generalize dependent ((n / 16777216) mod 256)%N; intros r4 D4 B4.
  generalize dependent (n / 16777216 / 256)%N; intros q4 D4.
  generalize dependent (n / 16777216)%N; intros q3 D3 D4.
  generalize dependent (n / 65536)%N; intros q2 D2 D3.
  generalize dependent (n / 256)%N; intros q1 D1 D2.
  lia.
Qed.

Lemma pack_L_length (n : N) (hdr : list byte) :
  pack_L n = Some hdr -> List.length hdr = 4%nat.
Proof.
  unfold pack_L. destruct (n <? 2 ^ 32)%N; [| discriminate].
  intros [= <-]. reflexivity.
Qed.

Lemma unpack_pack (n : N) (hdr : list byte) :
  pack_L n = Some hdr -> unpack_L hdr = Some n.
Proof.
  unfold pack_L. destruct (n <? 2 ^ 32)%N eqn:Hn; [| discriminate].
  intros [= <-]. unfold unpack_L. rewrite !to_N_byte_of_N.
  apply N.ltb_lt in Hn. rewrite (le_digits n Hn). reflexivity.
Qed.

(** ** Drive commands touch neither camera nor connection *)

Lemma clockwise_no_conn (s : float) (w : Wheel.t) :
  filter is_conn (snd (Wheel.clockwise_rotate s w)) = [].
Proof.
  rewrite clockwise_rotate_spec; simpl.
  destruct (Wheel.str_ne (Wheel._last_dir w) "c"),
    (Wheel.num_ne s (Wheel._last_dc_val w)); reflexivity.
Qed.

Lemma anticlockwise_no_conn (s : float) (w : Wheel.t) :
  filter is_conn (snd (Wheel.anticlockwise_rotate s w)) = [].
Proof.
  rewrite anticlockwise_rotate_spec; simpl.
  destruct (Wheel.str_ne (Wheel._last_dir w) "a"),
    (Wheel.num_ne s (Wheel._last_dc_val w)); reflexivity.
Qed.

Lemma dispatch_no_conn (key : string) (car : Car.t) :
  filter is_conn (snd (Client.dispatch key car)) = [].
Proof.
  destruct (dispatch_cases key car)
    as [[_ E] | [[_ E] | [[_ E] | (_ & _ & _ & E)]]]; rewrite E; simpl;
    rewrite ?move_forward_spec, ?rotate_left_spec, ?rotate_right_spec; simpl;
    rewrite ?filter_app, ?clockwise_no_conn, ?anticlockwise_no_conn;
    reflexivity.
Qed.

(** C9, what the code does. For every frame whose length fits 32 bits, the
    camera and connection calls of one pass are exactly, in this order:
    the capture, the write of the 4-byte little-endian length, a flush, the
    write of the payload, the read of one byte. The flush comes before the
    payload is written, and none separates the payload from the blocking
    read. *)
Theorem client_pass_flushes_before_payload
  (frame : list byte) (st : Client.state) (hdr : list byte) :
  pack_L (N.of_nat (List.length frame)) = Some hdr ->
  List.length hdr = 4%nat
  /\ unpack_L hdr = Some (N.of_nat (List.length frame))
  /\ filter is_conn (snd (Client.iteration frame st)) =
     [Capture frame; ConnWrite hdr; ConnFlush; ConnWrite frame;
      ConnRead 1 (firstn 1 (Client.inbuf st))].
Proof.
  intros Hp.
  split; [exact (pack_L_length _ _ Hp) |].
  split; [exact (unpack_pack _ _ Hp) |].
  rewrite (iteration_spec frame st hdr Hp).
  destruct (Client.decode_utf8 (firstn 1 (Client.inbuf st))) as [key|].
  - cbn [snd]. rewrite filter_app, dispatch_no_conn. reflexivity.
  - reflexivity.
Qed.

Lemma client_pass_flushes_before_payload_witness :
  filter is_conn
    (snd (Client.iteration ["001"%byte; "002"%byte; "003"%byte]
            (Client.mk fresh_car ["0"%byte] 0))) =
  [Capture ["001"%byte; "002"%byte; "003"%byte];
   ConnWrite ["003"%byte; "000"%byte; "000"%byte; "000"%byte];
   ConnFlush;
   ConnWrite ["001"%byte; "002"%byte; "003"%byte];
   ConnRead 1 (firstn 1 ["0"%byte])].
Proof.
  apply (proj2 (proj2 (client_pass_flushes_before_payload
                         ["001"%byte; "002"%byte; "003"%byte]
                         (Client.mk fresh_car ["0"%byte] 0)
                         ["003"%byte; "000"%byte; "000"%byte; "000"%byte]
                         eq_refl))).
Defined.

(** ** Server: one pass of the loop *)

Section ServerPass.

Variable classify : list byte -> N.

Lemma encode_key_digit (key : N) :
  (key < 10)%N ->
  Server.encode_key key = [byte_of_N (48 + key)]
  /\ Byte.to_N (byte_of_N (48 + key)) = (48 + key)%N.
Proof.
  intros Hk.
  assert (H : (key = 0 \/ key = 1 \/ key = 2 \/ key = 3 \/ key = 4 \/ key = 5
               \/ key = 6 \/ key = 7 \/ key = 8 \/ key = 9)%N) by lia.
  repeat (destruct H as [-> | H]; [split; reflexivity |]).
  subst key. split; reflexivity.
Qed.

Lemma server_loop_cons (k : Z) (ks : list Z) (inbuf : list byte) :
  Server.loop classify (k :: ks) inbuf =
  match fst (fst (Server.iteration classify k inbuf)) with
  | Continue =>
      (fst (Server.loop classify ks (snd (fst (Server.iteration classify k inbuf)))),
       snd (Server.iteration classify k inbuf)
       ++ snd (Server.loop classify ks
                 (snd (fst (Server.iteration classify k inbuf)))))
  | o => ((o, snd (fst (Server.iteration classify k inbuf))),
          snd (Server.iteration classify k inbuf))
  end.
Proof.
  simpl. rewrite bind_eq.
  destruct (Server.iteration classify k inbuf) as [[o rest] tr]; simpl.
  destruct o; unfold ret; simpl; rewrite ?app_nil_r; reflexivity.
Qed.

Lemma server_iteration_spec (waitKey : Z) (b0 b1 b2 b3 : byte) (rest : list byte) :
  Server.iteration classify waitKey (b0 :: b1 :: b2 :: b3 :: rest) =
  let image_len := (Byte.to_N b0 + 256 * Byte.to_N b1 + 65536 * Byte.to_N b2
                    + 16777216 * Byte.to_N b3)%N in
  if (image_len =? 0)%N
  then ((Break, rest), [ConnRead 4 [b0; b1; b2; b3]])
  else
    ((if (Z.land waitKey 255 =? 113)%Z then Break else Continue,
      skipn (N.to_nat image_len) rest),
     [ConnRead 4 [b0; b1; b2; b3];
      ConnRead image_len (firstn (N.to_nat image_len) rest);
      ConnWrite (Server.encode_key
                   (classify (firstn (N.to_nat image_len) rest)));
      ConnFlush]).
Proof.
  unfold Server.iteration, conn_read, bind, emit, ret.
  change (N.to_nat calcsize_L) with 4%nat.
  cbn [fst snd firstn skipn unpack_L app].
  destruct (_ =? 0)%N; [reflexivity |].
  destruct (Z.land waitKey 255 =? 113)%Z; reflexivity.
Qed.

(** C3. One pass of the server loop on a connection that delivers a whole
    frame. The pass first reads exactly 4 bytes and decodes them as an
    unsigned little-endian number, the inverse of the client's encoding. If
    that number is zero the pass leaves the loop having made no other call on
    the connection. Otherwise it reads exactly that many bytes, gives them to
    the classifier, writes the class index as one ASCII digit (for an index
    below 10) and flushes; these four calls are all the pass does on the
    connection, and a next pass starts only after them. *)
Theorem server_pass_frame (waitKey : Z) (b0 b1 b2 b3 : byte) (rest : list byte) :
  let hdr := [b0; b1; b2; b3] in
  let image_len := (Byte.to_N b0 + 256 * Byte.to_N b1 + 65536 * Byte.to_N b2
                    + 16777216 * Byte.to_N b3)%N in
  let payload := firstn (N.to_nat image_len) rest in
  unpack_L hdr = Some image_len
  /\ (forall n, pack_L n = Some hdr -> image_len = n)
  /\ (image_len = 0%N ->
      Server.iteration classify waitKey (hdr ++ rest) =
        ((Break, rest), [ConnRead 4 hdr]))
  /\ (image_len <> 0%N ->
      (N.to_nat image_len <= List.length rest)%nat ->
      (classify payload < 10)%N ->
      List.length payload = N.to_nat image_len
      /\ Byte.to_N (byte_of_N (48 + classify payload)) = (48 + classify payload)%N
      /\ Server.iteration classify waitKey (hdr ++ rest) =
           ((if (Z.land waitKey 255 =? 113)%Z then Break else Continue,
             skipn (N.to_nat image_len) rest),
            [ConnRead 4 hdr; ConnRead image_len payload;
             ConnWrite [byte_of_N (48 + classify payload)]; ConnFlush])
      /\ forall ks,
          (Z.land waitKey 255 =? 113)%Z = false ->
          snd (Server.loop classify (waitKey :: ks) (hdr ++ rest)) =
            [ConnRead 4 hdr; ConnRead image_len payload;
             ConnWrite [byte_of_N (48 + classify payload)]; ConnFlush]
            ++ snd (Server.loop classify ks (skipn (N.to_nat image_len) rest))).
Proof.
  intros hdr image_len payload.
  assert (Hu : unpack_L hdr = Some image_len) by reflexivity.
  assert (Hit := server_iteration_spec waitKey b0 b1 b2 b3 rest).
  cbv zeta in Hit. fold image_len in Hit. fold hdr in Hit.
  fold payload in Hit.
  split; [exact Hu |].
  split.
  { intros n Hn. apply unpack_pack in Hn. congruence. }
  split.
  - intros Hz. change (hdr ++ rest) with (b0 :: b1 :: b2 :: b3 :: rest).
    rewrite Hit, Hz. reflexivity.
  - intros Hnz Hlen Hkey.
    apply N.eqb_neq in Hnz. rewrite Hnz in Hit.
    destruct (encode_key_digit _ Hkey) as [Henc Hdigit].
    rewrite Henc in Hit.
    split; [apply firstn_length_le; exact Hlen |].
    split; [exact Hdigit |].
    split; [exact Hit |].
    intros ks Hq. rewrite server_loop_cons.
    change (hdr ++ rest) with (b0 :: b1 :: b2 :: b3 :: rest).
    rewrite Hit, Hq. reflexivity.
Qed.

End ServerPass.

Lemma server_pass_frame_witness :
  Server.iteration (fun _ => 2%N) 0
    (["003"%byte; "000"%byte; "000"%byte; "000"%byte]
     ++ ["001"%byte; "002"%byte; "003"%byte; "000"%byte; "000"%byte;
         "000"%byte; "000"%byte]) =
  ((Continue, ["000"%byte; "000"%byte; "000"%byte; "000"%byte]),
   [ConnRead 4 ["003"%byte; "000"%byte; "000"%byte; "000"%byte];
    ConnRead 3 ["001"%byte; "002"%byte; "003"%byte];
    ConnWrite ["2"%byte]; ConnFlush])
  /\ Server.iteration (fun _ => 2%N) 0
       (["000"%byte; "000"%byte; "000"%byte; "000"%byte] ++ []) =
     ((Break, []), [ConnRead 4 ["000"%byte; "000"%byte; "000"%byte; "000"%byte]]).
Proof.
  split.
  - apply (proj1 (proj2 (proj2
      (proj2 (proj2 (proj2
        (server_pass_frame (fun _ => 2%N) 0
           "003"%byte "000"%byte "000"%byte "000"%byte
           ["001"%byte; "002"%byte; "003"%byte; "000"%byte; "000"%byte;
            "000"%byte; "000"%byte])))
        ltac:(discriminate) ltac:(simpl; lia) ltac:(reflexivity))))).
  - apply (proj1 (proj2 (proj2
      (server_pass_frame (fun _ => 2%N) 0
         "000"%byte "000"%byte "000"%byte "000"%byte [])))).
    reflexivity.
Defined.

(** ** Client: the wheels across passes *)

Lemma car_calls_spec (c1 c2 c3 c4 : call) (car : Car.t) :
  car_calls c1 c2 c3 c4 car =
  (Car.mk (fst (do_call c1 (Car._front_left_wheel car)))
          (fst (do_call c2 (Car._front_right_wheel car)))
          (fst (do_call c3 (Car._rear_left_wheel car)))
          (fst (do_call c4 (Car._rear_right_wheel car))),
   snd (do_call c1 (Car._front_left_wheel car))
   ++ snd (do_call c2 (Car._front_right_wheel car))
   ++ snd (do_call c3 (Car._rear_left_wheel car))
   ++ snd (do_call c4 (Car._rear_right_wheel car))).
Proof.
  unfold car_calls. rewrite !bind_eq. unfold ret; simpl.
  rewrite app_nil_r. reflexivity.
Qed.

Lemma quiet_call (c : call) (w : Wheel.t) (p : Z) :
  p <> Wheel._pwm_pin w -> p <> Wheel._dir_pin_1 w -> p <> Wheel._dir_pin_2 w ->
  level_of (snd (do_call c w)) p = None /\ duty_of (snd (do_call c w)) p = None.
Proof.
  intros H0 H1 H2.
  assert (E0 : Z.eqb (Wheel._pwm_pin w) p = false) by (apply Z.eqb_neq; congruence).
  assert (E1 : Z.eqb (Wheel._dir_pin_1 w) p = false) by (apply Z.eqb_neq; congruence).
  assert (E2 : Z.eqb (Wheel._dir_pin_2 w) p = false) by (apply Z.eqb_neq; congruence).
  destruct c as [s | s |]; simpl;
    rewrite ?clockwise_rotate_spec, ?anticlockwise_rotate_spec; simpl.
  - destruct (Wheel.str_ne (Wheel._last_dir w) "c"),
      (Wheel.num_ne s (Wheel._last_dc_val w));
      unfold level_of, duty_of; simpl; rewrite ?E0, ?E1, ?E2; split; reflexivity.
  - destruct (Wheel.str_ne (Wheel._last_dir w) "a"),
      (Wheel.num_ne s (Wheel._last_dc_val w));
      unfold level_of, duty_of; simpl; rewrite ?E0, ?E1, ?E2; split; reflexivity.
  - unfold level_of, duty_of; simpl; rewrite ?E0, ?E1, ?E2; split; reflexivity.
Qed.

Lemma settled_frame (tr evs : list event) (w : Wheel.t) :
  level_of evs (Wheel._dir_pin_1 w) = None ->
  level_of evs (Wheel._dir_pin_2 w) = None ->
  duty_of evs (Wheel._pwm_pin w) = None ->
  settled tr w -> settled (tr ++ evs) w.
Proof.
  intros H1 H2 H0 [Hv Hd]. unfold settled, dir_signal in *.
  rewrite !level_of_app, duty_of_app, H0, H1, H2. auto.
Qed.

Lemma do_call_dc_ok (c : call) (w : Wheel.t) :
  rotation c -> dc_ok w -> driven (fst (do_call c w)).
Proof.
  intros Hc Hok.
  destruct c as [s | s |]; simpl in Hc; [| | contradiction]; simpl;
    rewrite ?clockwise_rotate_spec, ?anticlockwise_rotate_spec;
    unfold driven; simpl; (split; [auto |]);
    unfold Wheel.num_ne;
    (destruct (s =? Wheel._last_dc_val w)%float eqn:E; simpl; [| exact Hc]);
    (destruct Hok as [Hz | Hnz]; [| exact Hnz]);
    rewrite Hz in E; congruence.
Qed.

Lemma driven_dc_ok (w : Wheel.t) : driven w -> dc_ok w.
Proof. intros [_ H]. right. exact H. Qed.


Ltac pins_known H :=
  unfold client_pins, wheels, pins in H; simpl in H;
  injection H as ? ? ? ? ? ? ? ? ? ? ? ?.

Ltac quiet_here :=
  hw_norm;
  repeat match goal with
    | |- context [level_of (snd (do_call ?c ?w)) ?p] =>
        rewrite (proj1 (quiet_call c w p ltac:(congruence) ltac:(congruence)
                          ltac:(congruence)))
    | |- context [duty_of (snd (do_call ?c ?w)) ?p] =>
        rewrite (proj2 (quiet_call c w p ltac:(congruence) ltac:(congruence)
                          ltac:(congruence)))
    end;
  try reflexivity.

Lemma car_calls_inv (c1 c2 c3 c4 : call) (tr : list event) (car : Car.t) :
  client_pins car ->
  Forall (settled tr) (wheels car) ->
  client_pins (fst (car_calls c1 c2 c3 c4 car))
  /\ Forall (settled (tr ++ snd (car_calls c1 c2 c3 c4 car)))
            (wheels (fst (car_calls c1 c2 c3 c4 car))).
Proof.
  intros Hp Hs. rewrite car_calls_spec. cbn [fst snd].
  destruct car as [fl fr rl rr]. unfold wheels in *. cbn [Car._front_left_wheel
    Car._front_right_wheel Car._rear_left_wheel Car._rear_right_wheel] in *.
  inversion Hs as [| ? ? S1 Hs1]; subst. inversion Hs1 as [| ? ? S2 Hs2]; subst.
  inversion Hs2 as [| ? ? S3 Hs3]; subst. inversion Hs3 as [| ? ? S4 _]; subst.
  clear Hs Hs1 Hs2 Hs3.
  destruct (do_call_pins c1 fl) as (P10 & P11 & P12).
  destruct (do_call_pins c2 fr) as (P20 & P21 & P22).
  destruct (do_call_pins c3 rl) as (P30 & P31 & P32).
  destruct (do_call_pins c4 rr) as (P40 & P41 & P42).
  split.
  - unfold client_pins, wheels, pins in *; simpl in *.
    rewrite P10, P11, P12, P20, P21, P22, P30, P31, P32, P40, P41, P42.
    exact Hp.
  - pins_known Hp.
    repeat apply Forall_cons; [| | | | apply Forall_nil].
    + rewrite app_assoc. apply settled_frame; rewrite ?P10, ?P11, ?P12;
        [quiet_here | quiet_here | quiet_here |].
      apply in_sync_settled, do_call_in_sync; [congruence | exact S1].
    + rewrite app_assoc, (app_assoc (tr ++ _)).
      apply settled_frame; rewrite ?P20, ?P21, ?P22;
        [quiet_here | quiet_here | quiet_here |].
      apply in_sync_settled, do_call_in_sync; [congruence |].
      apply settled_frame; [quiet_here | quiet_here | quiet_here | exact S2].
    + rewrite app_assoc, (app_assoc (tr ++ _)), (app_assoc ((tr ++ _) ++ _)).
      apply settled_frame; rewrite ?P30, ?P31, ?P32;
        [quiet_here | quiet_here | quiet_here |].
      apply in_sync_settled, do_call_in_sync; [congruence |].
      rewrite <- app_assoc.
      apply settled_frame; [quiet_here | quiet_here | quiet_here | exact S3].
    + rewrite !app_assoc.
      apply in_sync_settled, do_call_in_sync; [congruence |].
      rewrite <- !app_assoc.
      apply settled_frame; [quiet_here | quiet_here | quiet_here | exact S4].
Qed.

Lemma move_forward_calls (speed : float) (car : Car.t) :
  Car.move_forward speed car =
  car_calls (Anticlockwise (speed + LEFT_FR_BIAS + LEFT_RIGHT_BIAS))
            (Clockwise (speed + RIGHT_FR_BIAS))
            (Anticlockwise (speed + LEFT_RIGHT_BIAS))
            (Clockwise speed) car.
Proof. reflexivity. Qed.

Lemma rotate_left_calls (speed : float) (car : Car.t) :
  Car.rotate_left speed car =
  car_calls (Clockwise (speed + LEFT_FR_BIAS + LEFT_RIGHT_BIAS))
            (Clockwise (speed + RIGHT_FR_BIAS))
            (Clockwise (speed + 1 + LEFT_RIGHT_BIAS))
            (Clockwise speed) car.
Proof. reflexivity. Qed.

Lemma rotate_right_calls (speed : float) (car : Car.t) :
  Car.rotate_right speed car =
  car_calls (Anticlockwise (speed + LEFT_FR_BIAS + LEFT_RIGHT_BIAS))
            (Anticlockwise (speed + RIGHT_FR_BIAS))
            (Anticlockwise (speed + 1 + LEFT_RIGHT_BIAS))
            (Anticlockwise speed) car.
Proof. reflexivity. Qed.

Lemma car_calls_driven (c1 c2 c3 c4 : call) (car : Car.t) :
  rotation c1 -> rotation c2 -> rotation c3 -> rotation c4 ->
  Forall dc_ok (wheels car) ->
  car_driven (fst (car_calls c1 c2 c3 c4 car)).
Proof.
  intros R1 R2 R3 R4 Hok. rewrite car_calls_spec.
  unfold car_driven, wheels in *; simpl.
  inversion Hok as [| ? ? K1 Hk1]; subst. inversion Hk1 as [| ? ? K2 Hk2]; subst.
  inversion Hk2 as [| ? ? K3 Hk3]; subst. inversion Hk3 as [| ? ? K4 _]; subst.
  repeat (apply Forall_cons; [apply do_call_dc_ok; assumption |]).
  apply Forall_nil.
Qed.

Lemma car_driven_dc_ok (car : Car.t) :
  car_driven car -> Forall dc_ok (wheels car).
Proof.
  unfold car_driven. intros H.
  eapply Forall_impl; [| exact H]. intros w. apply driven_dc_ok.
Qed.



Lemma client_inv_frame (tr evs : list event) (car : Car.t) :
  (forall p, level_of evs p = None /\ duty_of evs p = None) ->
  client_inv tr car -> client_inv (tr ++ evs) car.
Proof.
  intros Hq (Hp & Hs & Hok). split; [exact Hp | split; [| exact Hok]].
  eapply Forall_impl; [| exact Hs]. intros w Hw.
  apply settled_frame; try apply Hq. exact Hw.
Qed.

Lemma car_calls_client_inv (c1 c2 c3 c4 : call) (tr : list event) (car : Car.t) :
  rotation c1 -> rotation c2 -> rotation c3 -> rotation c4 ->
  client_inv tr car ->
  client_inv (tr ++ snd (car_calls c1 c2 c3 c4 car))
             (fst (car_calls c1 c2 c3 c4 car)).
Proof.
  intros R1 R2 R3 R4 (Hp & Hs & Hok).
  destruct (car_calls_inv c1 c2 c3 c4 tr car Hp Hs) as [Hp' Hs'].
  split; [exact Hp' | split; [exact Hs' |]].
  apply car_driven_dc_ok, car_calls_driven; assumption.
Qed.

Lemma dispatch_inv (key : string) (tr : list event) (car : Car.t) :
  client_inv tr car ->
  client_inv (tr ++ snd (Client.dispatch key car)) (fst (Client.dispatch key car)).
Proof.
  intros Hinv.
  destruct (dispatch_cases key car)
    as [[_ E] | [[_ E] | [[_ E] | (_ & _ & _ & E)]]]; rewrite E; cbn [fst snd].
  - change (Print "Move forward" :: snd (Car.move_forward 4 car))
      with ([Print "Move forward"] ++ snd (Car.move_forward 4 car)).
    rewrite app_assoc, move_forward_calls.
    apply car_calls_client_inv; try reflexivity.
    apply client_inv_frame; [intros p; split; reflexivity | exact Hinv].
  - rewrite app_assoc. apply client_inv_frame; [intros p; split; reflexivity |].
    rewrite rotate_left_calls.
    apply car_calls_client_inv; try reflexivity. exact Hinv.
  - rewrite app_assoc. apply client_inv_frame; [intros p; split; reflexivity |].
    rewrite rotate_right_calls.
    apply car_calls_client_inv; try reflexivity. exact Hinv.
  - rewrite app_nil_r. exact Hinv.
Qed.

Lemma iteration_car (frame : list byte) (st : Client.state) :
  (Client.my_car (snd (fst (Client.iteration frame st))) = Client.my_car st
   /\ forall p, level_of (snd (Client.iteration frame st)) p = None
                /\ duty_of (snd (Client.iteration frame st)) p = None)
  \/ exists (key : string) (pre : list event),
      Client.my_car (snd (fst (Client.iteration frame st)))
      = fst (Client.dispatch key (Client.my_car st))
      /\ snd (Client.iteration frame st)
         = pre ++ snd (Client.dispatch key (Client.my_car st))
      /\ forall p, level_of pre p = None /\ duty_of pre p = None.
Proof.
  destruct (pack_L (N.of_nat (List.length frame))) as [hdr|] eqn:Hp.
  - rewrite (iteration_spec frame st hdr Hp).
    destruct (Client.decode_utf8 (firstn 1 (Client.inbuf st))) as [key|].
    + right. exists key. eexists. cbn [fst snd Client.my_car].
      split; [reflexivity | split; [reflexivity |]].
      intros p; split; reflexivity.
    + left. cbn [fst snd Client.my_car]. split; [reflexivity |].
      intros p; split; reflexivity.
  - left. unfold Client.iteration. rewrite Hp, bind_eq. unfold emit, ret.
    cbn [fst snd]. split; [reflexivity |]. intros p; split; reflexivity.
Qed.

Lemma iteration_inv (frame : list byte) (tr : list event) (st : Client.state) :
  client_inv tr (Client.my_car st) ->
  client_inv (tr ++ snd (Client.iteration frame st))
             (Client.my_car (snd (fst (Client.iteration frame st)))).
Proof.
  intros Hinv.
  destruct (iteration_car frame st) as [[Ec Hq] | (key & pre & Ec & Et & Hq)].
  - rewrite Ec. apply client_inv_frame; assumption.
  - rewrite Ec, Et, app_assoc. apply dispatch_inv.
    apply client_inv_frame; assumption.
Qed.




Lemma make_car_inv : client_inv (snd Client.make_car) (fst Client.make_car).
Proof.
  split; [reflexivity | split].
  - repeat (apply Forall_cons; [split; [reflexivity | right; reflexivity] |]).
    apply Forall_nil.
  - repeat (apply Forall_cons; [left; reflexivity |]).
    apply Forall_nil.
Qed.


(** ** Client: decision '1' down to the driver *)

Lemma rotate_left_events (speed : float) (car : Car.t) :
  snd (Car.rotate_left speed car) =
  clockwise_events (speed + LEFT_FR_BIAS + LEFT_RIGHT_BIAS)
                   (Car._front_left_wheel car)
  ++ clockwise_events (speed + RIGHT_FR_BIAS) (Car._front_right_wheel car)
  ++ clockwise_events (speed + 1 + LEFT_RIGHT_BIAS) (Car._rear_left_wheel car)
  ++ clockwise_events speed (Car._rear_right_wheel car).
Proof.
  rewrite rotate_left_spec. cbn [snd].
  rewrite !clockwise_rotate_spec. reflexivity.
Qed.

(** After a clockwise call the request compares equal to the recorded duty
    cycle, and a settled wheel recorded clockwise has its pins say so. *)
Lemma clockwise_hw (tr : list event) (v : float) (w : Wheel.t) :
  (v =? v)%float = true ->
  settled tr (fst (Wheel.clockwise_rotate v w)) ->
  dir_signal tr (fst (Wheel.clockwise_rotate v w)) = Some "c"%string
  /\ exists d,
      duty_of tr (Wheel._pwm_pin (fst (Wheel.clockwise_rotate v w))) = Some d
      /\ (v =? d)%float = true.
Proof.
  intros Hv [Hd Hs]. rewrite clockwise_rotate_spec in *. cbn [fst] in *.
  cbn [Wheel._last_dir Wheel._last_dc_val Wheel._pwm_pin] in *.
  split.
  - destruct Hs as [Hs | Hs]; [exact Hs | discriminate Hs].
  - eexists. split; [exact Hd |].
    unfold Wheel.num_ne.
    destruct (v =? Wheel._last_dc_val w)%float eqn:E; [exact E | exact Hv].
Qed.

(** C4. A decision byte '1' decodes to the key "1", for which the client
    calls [rotate_left(4)] and nothing else on the car.
    - [rotate_left] turns all four wheels clockwise and requests:
      front-left the speed plus the left front/rear bias plus the left/right
      bias, front-right the speed plus the right front/rear bias, rear-left
      the speed plus the constant 1 plus the left/right bias, rear-right the
      bare speed; with speed 4 these are 5.2, 5, 5.2 and 4.
    - What it calls on the driver, wheel after wheel in that order: the two
      direction writes (first pin high, second pin low) unless the wheel is
      already recorded clockwise, then the duty-cycle write of the wheel's
      request unless the recorded duty cycle equals it. On the car as
      constructed these are twelve calls, with 5.2, 5, 5.2 and 4 given to
      the four PWM channels.
    - On the driver, after the pass: whenever the car's record agreed with
      the driver before the pass (as it does from the construction of the
      car on), the direction pins of each of the four wheels signal
      clockwise and its PWM channel holds a value equal to its request. *)
Theorem decision_one_rotates_left
  (frame : list byte) (st : Client.state) (rest hdr : list byte) :
  pack_L (N.of_nat (List.length frame)) = Some hdr ->
  Client.inbuf st = "1"%byte :: rest ->
  Client.iteration frame st =
    ((Continue,
      Client.mk (fst (Car.rotate_left 4 (Client.my_car st))) rest
                (Client.count st + 1)),
     [Capture frame; ConnWrite hdr; ConnFlush; ConnWrite frame;
      ConnRead 1 ["1"%byte]]
     ++ snd (Car.rotate_left 4 (Client.my_car st)) ++ [Print "Turn left"])
  /\ (forall (speed : float) (car : Car.t),
      let car' := fst (Car.rotate_left speed car) in
      Wheel._last_dir (Car._front_left_wheel car') = "c"%string
      /\ Wheel._last_dir (Car._front_right_wheel car') = "c"%string
      /\ Wheel._last_dir (Car._rear_left_wheel car') = "c"%string
      /\ Wheel._last_dir (Car._rear_right_wheel car') = "c"%string
      /\ Wheel._current_dc_val (Car._front_left_wheel car')
         = (speed + LEFT_FR_BIAS + LEFT_RIGHT_BIAS)%float
      /\ Wheel._current_dc_val (Car._front_right_wheel car')
         = (speed + RIGHT_FR_BIAS)%float
      /\ Wheel._current_dc_val (Car._rear_left_wheel car')
         = (speed + 1 + LEFT_RIGHT_BIAS)%float
      /\ Wheel._current_dc_val (Car._rear_right_wheel car') = speed)
  /\ (let car' := fst (Car.rotate_left 4 (Client.my_car st)) in
      Wheel._current_dc_val (Car._front_left_wheel car') = 5.2%float
      /\ Wheel._current_dc_val (Car._front_right_wheel car') = 5%float
      /\ Wheel._current_dc_val (Car._rear_left_wheel car') = 5.2%float
      /\ Wheel._current_dc_val (Car._rear_right_wheel car') = 4%float)
  /\ (forall (speed : float) (car : Car.t),
      snd (Car.rotate_left speed car) =
      clockwise_events (speed + LEFT_FR_BIAS + LEFT_RIGHT_BIAS)
                       (Car._front_left_wheel car)
      ++ clockwise_events (speed + RIGHT_FR_BIAS) (Car._front_right_wheel car)
      ++ clockwise_events (speed + 1 + LEFT_RIGHT_BIAS)
                          (Car._rear_left_wheel car)
      ++ clockwise_events speed (Car._rear_right_wheel car))
  /\ snd (Car.rotate_left 4 (Client.my_car st)) =
     clockwise_events 5.2 (Car._front_left_wheel (Client.my_car st))
     ++ clockwise_events 5 (Car._front_right_wheel (Client.my_car st))
     ++ clockwise_events 5.2 (Car._rear_left_wheel (Client.my_car st))
     ++ clockwise_events 4 (Car._rear_right_wheel (Client.my_car st))
  /\ snd (Car.rotate_left 4 fresh_car) =
     [Output 35 HIGH; Output 37 LOW; ChangeDutyCycle 33 5.2;
      Output 31 HIGH; Output 29 LOW; ChangeDutyCycle 32 5;
      Output 38 HIGH; Output 36 LOW; ChangeDutyCycle 40 5.2;
      Output 13 HIGH; Output 11 LOW; ChangeDutyCycle 15 4]
  /\ (forall tr : list event,
      client_inv tr (Client.my_car st) ->
      let tr' := tr ++ snd (Client.iteration frame st) in
      Forall (fun w =>
                dir_signal tr' w = Some "c"%string
                /\ exists d, duty_of tr' (Wheel._pwm_pin w) = Some d
                             /\ (Wheel._current_dc_val w =? d)%float = true)
             (wheels (Client.my_car (snd (fst (Client.iteration frame st)))))).
Proof.
  intros Hp Hin.
  assert (Hit : Client.iteration frame st =
    ((Continue,
      Client.mk (fst (Car.rotate_left 4 (Client.my_car st))) rest
                (Client.count st + 1)),
     [Capture frame; ConnWrite hdr; ConnFlush; ConnWrite frame;
      ConnRead 1 ["1"%byte]]
     ++ snd (Car.rotate_left 4 (Client.my_car st)) ++ [Print "Turn left"])).
  { rewrite (iteration_spec frame st hdr Hp), Hin.
    cbn [firstn skipn]. unfold Client.decode_utf8.
    change (Byte.to_N "1" <? 128)%N with true. cbv iota.
    change (String (ascii_of_byte "1") EmptyString) with "1"%string.
    rewrite dispatch_one. reflexivity. }
  split; [exact Hit |].
  split; [| split; [| split; [| split; [| split]]]].
  - intros speed car car'. subst car'. rewrite rotate_left_spec; simpl.
    repeat split; apply clockwise_rotate_requests.
  - rewrite rotate_left_spec; simpl.
    rewrite !(proj2 (clockwise_rotate_requests _ _)).
    repeat split; reflexivity.
  - intros speed car. apply rotate_left_events.
  - apply rotate_left_events.
  - reflexivity.
  - intros tr Hinv tr'. subst tr'.
    pose proof (iteration_inv frame tr st Hinv) as (_ & Hs & _).
    revert Hs. rewrite Hit. cbn [fst snd Client.my_car].
    generalize (tr ++
                [Capture frame; ConnWrite hdr; ConnFlush; ConnWrite frame;
                 ConnRead 1 ["1"%byte]]
                ++ snd (Car.rotate_left 4 (Client.my_car st))
                ++ [Print "Turn left"]).
    intros t Hs. rewrite rotate_left_spec in *. unfold wheels in *.
    cbn [fst Car._front_left_wheel Car._front_right_wheel
         Car._rear_left_wheel Car._rear_right_wheel] in *.
    inversion Hs as [| ? ? S1 Hs1]; subst. inversion Hs1 as [| ? ? S2 Hs2]; subst.
    inversion Hs2 as [| ? ? S3 Hs3]; subst. inversion Hs3 as [| ? ? S4 _]; subst.
    repeat (apply Forall_cons;
            [rewrite (proj2 (clockwise_rotate_requests _ _));
             apply clockwise_hw; [reflexivity | assumption] |]).
    apply Forall_nil.
Qed.

Lemma decision_one_rotates_left_witness :
  let frame := ["001"; "002"; "003"]%byte in
  let st := Client.mk fresh_car ["1"; "0"]%byte 0 in
  Client.iteration frame st =
    ((Continue,
      Client.mk (fst (Car.rotate_left 4 fresh_car)) ["0"%byte] (0 + 1)),
     [Capture ["001"; "002"; "003"]%byte;
      ConnWrite ["003"; "000"; "000"; "000"]%byte;
      ConnFlush; ConnWrite ["001"; "002"; "003"]%byte;
      ConnRead 1 ["1"%byte];
      Output 35 HIGH; Output 37 LOW; ChangeDutyCycle 33 5.2;
      Output 31 HIGH; Output 29 LOW; ChangeDutyCycle 32 5;
      Output 38 HIGH; Output 36 LOW; ChangeDutyCycle 40 5.2;
      Output 13 HIGH; Output 11 LOW; ChangeDutyCycle 15 4;
      Print "Turn left"])
  /\ Forall (fun w =>
               dir_signal (snd Client.make_car ++ snd (Client.iteration frame st)) w
               = Some "c"%string
               /\ exists d,
                   duty_of (snd Client.make_car ++ snd (Client.iteration frame st))
                           (Wheel._pwm_pin w) = Some d
                   /\ (Wheel._current_dc_val w =? d)%float = true)
            (wheels (Client.my_car (snd (fst (Client.iteration frame st))))).
Proof.
  cbv zeta.
  pose proof (decision_one_rotates_left
                ["001"; "002"; "003"]%byte
                (Client.mk fresh_car ["1"; "0"]%byte 0)
                ["0"%byte]
                ["003"; "000"; "000"; "000"]%byte
                eq_refl eq_refl) as (Hit & _ & _ & _ & _ & _ & Hhw).
  split.
  - exact Hit.
  - exact (Hhw (snd Client.make_car) make_car_inv).
Defined.

(** ** Client: no duty-cycle write of zero *)










(** ** Wheel and Car: further properties of [car.py] *)

Lemma in_sync_frame (tr evs : list event) (w : Wheel.t) :
  level_of evs (Wheel._dir_pin_1 w) = None ->
  level_of evs (Wheel._dir_pin_2 w) = None ->
  duty_of evs (Wheel._pwm_pin w) = None ->
  in_sync tr w -> in_sync (tr ++ evs) w.
Proof.
  intros H1 H2 H0 [Hd Hv]. unfold in_sync, dir_signal in *.
  rewrite !level_of_app, duty_of_app, H0, H1, H2. auto.
Qed.

Lemma anticlockwise_again_silent (s : float) (w : Wheel.t) :
  (s =? s)%float = true ->
  snd (Wheel.anticlockwise_rotate s (fst (Wheel.anticlockwise_rotate s w))) = [].
Proof.
  intros Hs. rewrite (anticlockwise_rotate_spec s w); simpl.
  rewrite anticlockwise_rotate_spec; simpl. rewrite ?str_ne_same; simpl.
  destruct (Wheel.num_ne s (Wheel._last_dc_val w)) eqn:Ev.
  - rewrite (num_ne_same s Hs). reflexivity.
  - rewrite Ev. reflexivity.
Qed.

Lemma do_call_again_silent (c : call) (w : Wheel.t) :
  numeric c -> snd (do_call c (fst (do_call c w))) = [].
Proof.
  destruct c as [s | s |]; simpl; intros Hn.
  - apply clockwise_again_silent; exact Hn.
  - apply anticlockwise_again_silent; exact Hn.
  - contradiction.
Qed.

Lemma do_call_letter (c : call) (w : Wheel.t) :
  Wheel._last_dir (fst (do_call c w)) = letter c.
Proof.
  destruct c; simpl;
    rewrite ?clockwise_rotate_spec, ?anticlockwise_rotate_spec; reflexivity.
Qed.

Lemma do_call_freq (c : call) (w : Wheel.t) :
  Wheel._pwm_freq (fst (do_call c w)) = Wheel._pwm_freq w.
Proof.
  destruct c; simpl;
    rewrite ?clockwise_rotate_spec, ?anticlockwise_rotate_spec; reflexivity.
Qed.

(** After a rotate call at a numeric speed the code's own test
    [_current_dc_val != _last_dc_val] is false, and [stop] keeps it so. *)
Lemma do_call_dc_agree (c : call) (w : Wheel.t) :
  c = Stop \/ numeric c ->
  Wheel.num_ne (Wheel._current_dc_val w) (Wheel._last_dc_val w) = false ->
  Wheel.num_ne (Wheel._current_dc_val (fst (do_call c w)))
               (Wheel._last_dc_val (fst (do_call c w))) = false.
Proof.
  intros Hc Hw.
  destruct c as [s | s |]; simpl;
    rewrite ?clockwise_rotate_spec, ?anticlockwise_rotate_spec; simpl;
    try exact Hw;
    (destruct Hc as [Hc | Hc]; [discriminate |]); simpl in Hc;
    (destruct (Wheel.num_ne s (Wheel._last_dc_val w)) eqn:E;
     [apply num_ne_same; exact Hc | exact E]).
Qed.

(** X1. The record of a wheel, from its construction through any sequence
    of calls at numeric speeds: [_last_dir] is one of the three letters, the
    pins and the frequency are those given to the constructor, and the last
    requested duty cycle compares equal to the recorded one. *)
Theorem wheel_record_invariant (pwm d1 d2 freq : Z) (cs : list call) :
  Forall (fun c => c = Stop \/ numeric c) cs ->
  let w := fst (do_calls cs (fst (Wheel.init pwm d1 d2 freq))) in
  (Wheel._last_dir w = "s" \/ Wheel._last_dir w = "c" \/ Wheel._last_dir w = "a")%string
  /\ pins w = (pwm, d1, d2)
  /\ Wheel._pwm_freq w = freq
  /\ Wheel.num_ne (Wheel._current_dc_val w) (Wheel._last_dc_val w) = false.
Proof.
  induction cs as [|c cs IH] using rev_ind; intros Hcs w.
  - subst w; simpl. repeat split; auto.
  - apply Forall_app in Hcs as [Hcs Hc]. inversion Hc as [| ? ? Hc1 _]; subst.
    specialize (IH Hcs). cbv zeta in IH.
    destruct IH as (_ & Hp & Hf & Hv).
    subst w. rewrite do_calls_snoc. cbn [fst].
    split; [| split; [| split]].
    + rewrite do_call_letter. destruct c; simpl; auto.
    + destruct (do_call_pins c (fst (do_calls cs (fst (Wheel.init pwm d1 d2 freq)))))
        as (E0 & E1 & E2).
      unfold pins in *. rewrite E0, E1, E2. exact Hp.
    + rewrite do_call_freq. exact Hf.
    + apply do_call_dc_agree; assumption.
Qed.

Lemma wheel_record_invariant_witness :
  let w := fst (do_calls [Clockwise 4; Stop; Anticlockwise 2.5]
                         (fst (Wheel.init 33 35 37 1500))) in
  (Wheel._last_dir w = "s" \/ Wheel._last_dir w = "c" \/ Wheel._last_dir w = "a")%string
  /\ pins w = (33, 35, 37)%Z
  /\ Wheel._pwm_freq w = 1500%Z
  /\ Wheel.num_ne (Wheel._current_dc_val w) (Wheel._last_dc_val w) = false.
Proof.
  apply (wheel_record_invariant 33 35 37 1500 [Clockwise 4; Stop; Anticlockwise 2.5]).
  repeat constructor; right; reflexivity.
Defined.

Lemma do_command_calls (c : command) (car : Car.t) :
  do_command c car = wheel_calls (calls_of c) car.
Proof. destruct c; reflexivity. Qed.

Lemma calls_of_four (c : command) :
  exists c1 c2 c3 c4, calls_of c = [c1; c2; c3; c4].
Proof. destruct c; simpl; eauto. Qed.

Lemma forall4 {A} (P : A -> Prop) (a b c d : A) :
  Forall P [a; b; c; d] -> P a /\ P b /\ P c /\ P d.
Proof.
  intros H. inversion H as [| ? ? Ha H1]; subst.
  inversion H1 as [| ? ? Hb H2]; subst. inversion H2 as [| ? ? Hc H3]; subst.
  inversion H3 as [| ? ? Hd _]; subst. auto.
Qed.

(** X2. A motion command given twice in a row, at a speed whose four wheel
    requests are numbers, issues nothing at all the second time. *)
Theorem command_repeat_silent (c : command) (car : Car.t) :
  Forall numeric (calls_of c) ->
  snd (do_command c (fst (do_command c car))) = [].
Proof.
  intros Hn. rewrite !do_command_calls.
  destruct (calls_of_four c) as (c1 & c2 & c3 & c4 & E). rewrite E in *.
  apply forall4 in Hn as (N1 & N2 & N3 & N4).
  unfold wheel_calls. rewrite (car_calls_spec c1 c2 c3 c4 car). cbn [fst].
  rewrite car_calls_spec; cbn [snd Car._front_left_wheel Car._front_right_wheel
    Car._rear_left_wheel Car._rear_right_wheel].
  rewrite !do_call_again_silent by assumption. reflexivity.
Qed.

Lemma command_repeat_silent_witness :
  snd (do_command (TurnLeft 30) (fst (do_command (TurnLeft 30) fresh_car))) = [].
Proof.
  apply (command_repeat_silent (TurnLeft 30) fresh_car).
  repeat constructor.
Defined.

Lemma car_calls_twice (a1 a2 a3 a4 b1 b2 b3 b4 : call) (car : Car.t) :
  car_calls b1 b2 b3 b4 (fst (car_calls a1 a2 a3 a4 car)) =
  (Car.mk (fst (do_call b1 (fst (do_call a1 (Car._front_left_wheel car)))))
          (fst (do_call b2 (fst (do_call a2 (Car._front_right_wheel car)))))
          (fst (do_call b3 (fst (do_call a3 (Car._rear_left_wheel car)))))
          (fst (do_call b4 (fst (do_call a4 (Car._rear_right_wheel car))))),
   snd (do_call b1 (fst (do_call a1 (Car._front_left_wheel car))))
   ++ snd (do_call b2 (fst (do_call a2 (Car._front_right_wheel car))))
   ++ snd (do_call b3 (fst (do_call a3 (Car._rear_left_wheel car))))
   ++ snd (do_call b4 (fst (do_call a4 (Car._rear_right_wheel car))))).
Proof.
  rewrite (car_calls_spec a1 a2 a3 a4 car). cbn [fst].
  rewrite car_calls_spec. reflexivity.
Qed.

Lemma stop_spec (w : Wheel.t) :
  Wheel.stop w =
  (Wheel.mk (Wheel._pwm_pin w) (Wheel._dir_pin_1 w) (Wheel._dir_pin_2 w)
            (Wheel._pwm_freq w) "s" (Wheel._last_dc_val w)
            (Wheel._current_dc_val w),
   [Output (Wheel._dir_pin_1 w) HIGH; Output (Wheel._dir_pin_2 w) HIGH]).
Proof. reflexivity. Qed.

(** A numeric rotate call, a stop, and the same call again: the second call
    sets the direction pins, leaves the PWM channel alone and restores the
    record the first call left. *)
Lemma resume_after_stop (c : call) (w : Wheel.t) :
  numeric c ->
  do_call c (fst (Wheel.stop (fst (do_call c w)))) =
  (fst (do_call c w), dir_events c w).
Proof.
  destruct c as [s | s |]; cbn [do_call numeric]; intros Hn; [| | contradiction];
    rewrite ?(clockwise_rotate_spec s w), ?(anticlockwise_rotate_spec s w);
    cbn [fst]; rewrite stop_spec; cbn [fst];
    rewrite ?clockwise_rotate_spec, ?anticlockwise_rotate_spec; simpl;
    (destruct (Wheel.num_ne s (Wheel._last_dc_val w)) eqn:E;
     [rewrite (num_ne_same s Hn) | rewrite E]); reflexivity.
Qed.

(** After a numeric rotate call, the call in the other sense at the same
    speed sets the direction pins and nothing else. *)
Lemma flip_after (c : call) (w : Wheel.t) :
  numeric c ->
  snd (do_call (flip c) (fst (do_call c w))) = dir_events (flip c) w
  /\ Wheel._current_dc_val (fst (do_call (flip c) (fst (do_call c w))))
     = Wheel._current_dc_val (fst (do_call c w))
  /\ Wheel._last_dc_val (fst (do_call (flip c) (fst (do_call c w))))
     = Wheel._last_dc_val (fst (do_call c w)).
Proof.
  destruct c as [s | s |]; cbn [do_call numeric flip]; intros Hn;
    [| | contradiction];
    rewrite ?(clockwise_rotate_spec s w), ?(anticlockwise_rotate_spec s w);
    cbn [fst];
    rewrite ?clockwise_rotate_spec, ?anticlockwise_rotate_spec; simpl;
    (destruct (Wheel.num_ne s (Wheel._last_dc_val w)) eqn:E;
     [rewrite (num_ne_same s Hn) | rewrite E]); auto.
Qed.

(** X3. Going from forward to reverse, or from a left to a right rotation,
    at the same (numeric) speed writes the two direction pins of each wheel,
    eight writes in wheel order, and no duty cycle: every PWM channel keeps
    its value, and each wheel is asked for the same duty cycle as before. *)
Theorem reversal_rewrites_directions_only (s : float) (car : Car.t) :
  let fl := Car._front_left_wheel car in
  let fr := Car._front_right_wheel car in
  let rl := Car._rear_left_wheel car in
  let rr := Car._rear_right_wheel car in
  (Forall numeric (calls_of (Forward s)) ->
   snd (Car.move_reverse s (fst (Car.move_forward s car))) =
     [Output (Wheel._dir_pin_1 fl) HIGH; Output (Wheel._dir_pin_2 fl) LOW;
      Output (Wheel._dir_pin_1 fr) LOW; Output (Wheel._dir_pin_2 fr) HIGH;
      Output (Wheel._dir_pin_1 rl) HIGH; Output (Wheel._dir_pin_2 rl) LOW;
      Output (Wheel._dir_pin_1 rr) LOW; Output (Wheel._dir_pin_2 rr) HIGH]
   /\ requests (fst (Car.move_reverse s (fst (Car.move_forward s car))))
      = requests (fst (Car.move_forward s car))
   /\ directions (fst (Car.move_forward s car)) = ["a"; "c"; "a"; "c"]%string
   /\ directions (fst (Car.move_reverse s (fst (Car.move_forward s car))))
      = ["c"; "a"; "c"; "a"]%string)
  /\ (Forall numeric (calls_of (RotateLeft s)) ->
      snd (Car.rotate_right s (fst (Car.rotate_left s car))) =
        [Output (Wheel._dir_pin_1 fl) LOW; Output (Wheel._dir_pin_2 fl) HIGH;
         Output (Wheel._dir_pin_1 fr) LOW; Output (Wheel._dir_pin_2 fr) HIGH;
         Output (Wheel._dir_pin_1 rl) LOW; Output (Wheel._dir_pin_2 rl) HIGH;
         Output (Wheel._dir_pin_1 rr) LOW; Output (Wheel._dir_pin_2 rr) HIGH]
      /\ requests (fst (Car.rotate_right s (fst (Car.rotate_left s car))))
         = requests (fst (Car.rotate_left s car))
      /\ directions (fst (Car.rotate_left s car)) = ["c"; "c"; "c"; "c"]%string
      /\ directions (fst (Car.rotate_right s (fst (Car.rotate_left s car))))
         = ["a"; "a"; "a"; "a"]%string).
Proof.
  intros fl fr rl rr. split; intros Hn.
  - apply forall4 in Hn as (N1 & N2 & N3 & N4).
    change (Car.move_forward s car) with (wheel_calls (calls_of (Forward s)) car).
    change (Car.move_reverse s) with (wheel_calls (map flip (calls_of (Forward s)))).
    cbn [calls_of wheel_calls map]. rewrite car_calls_twice. cbn [fst snd].
    rewrite (car_calls_spec _ _ _ _ car).
    unfold requests, directions, wheels. cbn [fst map Car._front_left_wheel
      Car._front_right_wheel Car._rear_left_wheel Car._rear_right_wheel].
    rewrite !do_call_letter.
    rewrite (proj1 (flip_after _ _ N1)), (proj1 (flip_after _ _ N2)),
      (proj1 (flip_after _ _ N3)), (proj1 (flip_after _ _ N4)).
    rewrite (proj1 (proj2 (flip_after _ _ N1))), (proj1 (proj2 (flip_after _ _ N2))),
      (proj1 (proj2 (flip_after _ _ N3))), (proj1 (proj2 (flip_after _ _ N4))).
    repeat split; reflexivity.
  - apply forall4 in Hn as (N1 & N2 & N3 & N4).
    change (Car.rotate_left s car) with (wheel_calls (calls_of (RotateLeft s)) car).
    change (Car.rotate_right s)
      with (wheel_calls (map flip (calls_of (RotateLeft s)))).
    cbn [calls_of wheel_calls map]. rewrite car_calls_twice. cbn [fst snd].
    rewrite (car_calls_spec _ _ _ _ car).
    unfold requests, directions, wheels. cbn [fst map Car._front_left_wheel
      Car._front_right_wheel Car._rear_left_wheel Car._rear_right_wheel].
    rewrite !do_call_letter.
    rewrite (proj1 (flip_after _ _ N1)), (proj1 (flip_after _ _ N2)),
      (proj1 (flip_after _ _ N3)), (proj1 (flip_after _ _ N4)).
    rewrite (proj1 (proj2 (flip_after _ _ N1))), (proj1 (proj2 (flip_after _ _ N2))),
      (proj1 (proj2 (flip_after _ _ N3))), (proj1 (proj2 (flip_after _ _ N4))).
    repeat split; reflexivity.
Qed.

Lemma reversal_rewrites_directions_only_witness :
  snd (Car.move_reverse 4 (fst (Car.move_forward 4 fresh_car))) =
    [Output 35 HIGH; Output 37 LOW; Output 31 LOW; Output 29 HIGH;
     Output 38 HIGH; Output 36 LOW; Output 13 LOW; Output 11 HIGH].
Proof.
  apply (proj1 (reversal_rewrites_directions_only 4 fresh_car)).
  repeat constructor.
Defined.

(** X4. [Car.stop] brakes the four wheels with eight pin writes and leaves
    every recorded and every requested duty cycle as it was. Giving the
    command that was running again then only sets the direction pins back,
    eight writes and no duty-cycle write, and the car's record is again
    exactly what it was before the stop. *)
Theorem stop_then_resume (c : command) (car : Car.t) :
  Forall numeric (calls_of c) ->
  let car1 := fst (do_command c car) in
  let car2 := fst (Car.stop car1) in
  snd (Car.stop car1) =
    flat_map (fun w => [Output (Wheel._dir_pin_1 w) HIGH;
                        Output (Wheel._dir_pin_2 w) HIGH]) (wheels car1)
  /\ directions car2 = ["s"; "s"; "s"; "s"]%string
  /\ map Wheel._last_dc_val (wheels car2) = map Wheel._last_dc_val (wheels car1)
  /\ requests car2 = requests car1
  /\ fst (do_command c car2) = car1
  /\ duty_writes (snd (do_command c car2)) = []
  /\ List.length (outputs (snd (do_command c car2))) = 8%nat.
Proof.
  intros Hn car1 car2.
  repeat (split; [reflexivity |]).
  subst car2 car1. rewrite !do_command_calls.
  destruct (calls_of_four c) as (c1 & c2 & c3 & c4 & E). rewrite E in *.
  apply forall4 in Hn as (N1 & N2 & N3 & N4).
  unfold wheel_calls.
  change (Car.stop (fst (car_calls c1 c2 c3 c4 car)))
    with (car_calls Stop Stop Stop Stop (fst (car_calls c1 c2 c3 c4 car))).
  rewrite car_calls_twice. cbn [fst].
  rewrite car_calls_spec. cbn [fst snd Car._front_left_wheel Car._front_right_wheel
    Car._rear_left_wheel Car._rear_right_wheel do_call].
  rewrite !resume_after_stop by assumption. cbn [fst snd].
  split; [reflexivity |].
  destruct c1, c2, c3, c4; try contradiction; split; reflexivity.
Qed.

Lemma stop_then_resume_witness :
  fst (do_command (RotateRight 4)
         (fst (Car.stop (fst (do_command (RotateRight 4) fresh_car)))))
  = fst (do_command (RotateRight 4) fresh_car)
  /\ duty_writes
       (snd (do_command (RotateRight 4)
               (fst (Car.stop (fst (do_command (RotateRight 4) fresh_car))))))
     = [].
Proof.
  pose proof (stop_then_resume (RotateRight 4) fresh_car) as H.
  destruct H as (_ & _ & _ & _ & Hrec & Hduty & _).
  - repeat constructor.
  - split; [exact Hrec | exact Hduty].
Defined.

Lemma do_call_events (c : call) (w : Wheel.t) :
  forallb (own_event w) (snd (do_call c w)) = true
  /\ (List.length (outputs (snd (do_call c w))) <= 2)%nat
  /\ (List.length (duty_writes (snd (do_call c w))) <= 1)%nat
  /\ (List.length (snd (do_call c w)) <= 3)%nat
  /\ filter is_print (snd (do_call c w)) = []
  /\ filter is_conn (snd (do_call c w)) = [].
Proof.
  destruct c as [s | s |]; cbn [do_call];
    rewrite ?clockwise_rotate_spec, ?anticlockwise_rotate_spec, ?stop_spec;
    cbn [snd].
  - destruct (Wheel.str_ne (Wheel._last_dir w) "c"),
      (Wheel.num_ne s (Wheel._last_dc_val w)); simpl;
      rewrite ?Z.eqb_refl, ?orb_true_r; simpl; repeat split; lia.
  - destruct (Wheel.str_ne (Wheel._last_dir w) "a"),
      (Wheel.num_ne s (Wheel._last_dc_val w)); simpl;
      rewrite ?Z.eqb_refl, ?orb_true_r; simpl; repeat split; lia.
  - simpl. rewrite ?Z.eqb_refl, ?orb_true_r; simpl. repeat split; lia.
Qed.

Lemma forallb_own_weaken (w : Wheel.t) (ws : list Wheel.t) (tr : list event) :
  In w ws ->
  forallb (own_event w) tr = true ->
  forallb (fun e => existsb (fun w' => own_event w' e) ws) tr = true.
Proof.
  intros Hin H. rewrite forallb_forall in *. intros e He.
  apply existsb_exists. exists w. split; [exact Hin | apply H, He].
Qed.

(** X5. Whatever the command and the state of the car, a command issues at
    most eight direction-pin writes and four duty-cycle writes, twelve
    driver calls at most, each on a channel of one of the car's own wheels;
    it prints nothing and uses neither camera nor connection. *)
Theorem command_events_bounded (c : command) (car : Car.t) :
  let tr := snd (do_command c car) in
  (List.length (outputs tr) <= 8)%nat
  /\ (List.length (duty_writes tr) <= 4)%nat
  /\ (List.length tr <= 12)%nat
  /\ forallb (fun e => existsb (fun w => own_event w e) (wheels car)) tr = true
  /\ filter is_print tr = [] /\ filter is_conn tr = [].
Proof.
  intros tr. subst tr. rewrite do_command_calls.
  destruct (calls_of_four c) as (c1 & c2 & c3 & c4 & E). rewrite E.
  unfold wheel_calls. rewrite car_calls_spec. cbn [snd].
  destruct (do_call_events c1 (Car._front_left_wheel car))
    as (O1 & L1 & D1 & T1 & P1 & K1).
  destruct (do_call_events c2 (Car._front_right_wheel car))
    as (O2 & L2 & D2 & T2 & P2 & K2).
  destruct (do_call_events c3 (Car._rear_left_wheel car))
    as (O3 & L3 & D3 & T3 & P3 & K3).
  destruct (do_call_events c4 (Car._rear_right_wheel car))
    as (O4 & L4 & D4 & T4 & P4 & K4).
  split; [rewrite !outputs_app, !length_app; lia |].
  split; [rewrite !duty_writes_app, !length_app; lia |].
  split; [rewrite !length_app; lia |].
  split.
  - rewrite !forallb_app.
    rewrite (forallb_own_weaken (Car._front_left_wheel car) (wheels car) _
               ltac:(simpl; auto) O1),
      (forallb_own_weaken (Car._front_right_wheel car) (wheels car) _
         ltac:(simpl; auto) O2),
      (forallb_own_weaken (Car._rear_left_wheel car) (wheels car) _
         ltac:(simpl; auto) O3),
      (forallb_own_weaken (Car._rear_right_wheel car) (wheels car) _
         ltac:(simpl; auto) O4).
    reflexivity.
  - rewrite !filter_app, P1, P2, P3, P4, K1, K2, K3, K4. split; reflexivity.
Qed.

Lemma car_calls_in_sync (c1 c2 c3 c4 : call) (tr : list event) (car : Car.t) :
  client_pins car ->
  Forall (settled tr) (wheels car) ->
  Forall (in_sync (tr ++ snd (car_calls c1 c2 c3 c4 car)))
         (wheels (fst (car_calls c1 c2 c3 c4 car))).
Proof.
  intros Hp Hs. rewrite car_calls_spec. cbn [fst snd].
  destruct car as [fl fr rl rr]. unfold wheels in *. cbn [Car._front_left_wheel
    Car._front_right_wheel Car._rear_left_wheel Car._rear_right_wheel] in *.
  apply forall4 in Hs as (S1 & S2 & S3 & S4).
  destruct (do_call_pins c1 fl) as (P10 & P11 & P12).
  destruct (do_call_pins c2 fr) as (P20 & P21 & P22).
  destruct (do_call_pins c3 rl) as (P30 & P31 & P32).
  destruct (do_call_pins c4 rr) as (P40 & P41 & P42).
  pins_known Hp.
  repeat apply Forall_cons; [| | | | apply Forall_nil].
  - rewrite app_assoc. apply in_sync_frame; rewrite ?P10, ?P11, ?P12;
      [quiet_here | quiet_here | quiet_here |].
    apply do_call_in_sync; [congruence | exact S1].
  - rewrite app_assoc, (app_assoc (tr ++ _)).
    apply in_sync_frame; rewrite ?P20, ?P21, ?P22;
      [quiet_here | quiet_here | quiet_here |].
    apply do_call_in_sync; [congruence |].
    apply settled_frame; [quiet_here | quiet_here | quiet_here | exact S2].
  - rewrite app_assoc, (app_assoc (tr ++ _)), (app_assoc ((tr ++ _) ++ _)).
    apply in_sync_frame; rewrite ?P30, ?P31, ?P32;
      [quiet_here | quiet_here | quiet_here |].
    apply do_call_in_sync; [congruence |].
    rewrite <- app_assoc.
    apply settled_frame; [quiet_here | quiet_here | quiet_here | exact S3].
  - rewrite !app_assoc.
    apply do_call_in_sync; [congruence |].
    rewrite <- !app_assoc.
    apply settled_frame; [quiet_here | quiet_here | quiet_here | exact S4].
Qed.

Lemma do_commands_snoc (cs : list command) (c : command) (car : Car.t) :
  do_commands (cs ++ [c]) car =
  (fst (do_command c (fst (do_commands cs car))),
   snd (do_commands cs car) ++ snd (do_command c (fst (do_commands cs car)))).
Proof.
  revert car. induction cs as [|c0 cs IH]; intros car; simpl.
  - rewrite bind_eq. unfold ret; simpl. rewrite app_nil_r. reflexivity.
  - rewrite !bind_eq, IH. cbn [fst snd]. rewrite app_assoc. reflexivity.
Qed.

Lemma do_commands_settled (cs : list command) (tr : list event) (car : Car.t) :
  client_pins car ->
  Forall (settled tr) (wheels car) ->
  client_pins (fst (do_commands cs car))
  /\ Forall (settled (tr ++ snd (do_commands cs car)))
            (wheels (fst (do_commands cs car))).
Proof.
  intros Hp Hs. induction cs as [|c cs IH] using rev_ind.
  - simpl. rewrite app_nil_r. auto.
  - destruct IH as [IHp IHs]. rewrite do_commands_snoc. cbn [fst snd].
    rewrite app_assoc, do_command_calls.
    destruct (calls_of_four c) as (c1 & c2 & c3 & c4 & E). rewrite E.
    apply car_calls_inv; assumption.
Qed.

(** X6. On the car that [pilot_client.py] and [collect_data.py] construct,
    after every command of any sequence of the seven commands, stops
    included, each wheel's record agrees with the driver: the direction pins
    signal [_last_dir] and the PWM channel holds [_last_dc_val]. *)
Theorem commands_keep_in_sync (cs : list command) (c : command) :
  let r := do_commands (cs ++ [c]) fresh_car in
  client_pins (fst r)
  /\ Forall (in_sync (snd Client.make_car ++ snd r)) (wheels (fst r)).
Proof.
  intros r. subst r. rewrite do_commands_snoc. cbn [fst snd].
  destruct make_car_inv as (Hp & Hs & _).
  destruct (do_commands_settled cs _ _ Hp Hs) as [Hp1 Hs1].
  rewrite app_assoc, do_command_calls.
  destruct (calls_of_four c) as (c1 & c2 & c3 & c4 & E). rewrite E.
  split.
  - apply (car_calls_inv c1 c2 c3 c4 _ _ Hp1 Hs1).
  - apply car_calls_in_sync; assumption.
Qed.

Lemma forward_requests (s : float) (car : Car.t) :
  requests (fst (Car.move_forward s car))
  = [s + LEFT_FR_BIAS + LEFT_RIGHT_BIAS; s + RIGHT_FR_BIAS;
     s + LEFT_RIGHT_BIAS; s]%float.
Proof.
  rewrite move_forward_spec. unfold requests, wheels; simpl.
  rewrite !(proj2 (clockwise_rotate_requests _ _)),
    !(proj2 (anticlockwise_rotate_requests _ _)). reflexivity.
Qed.

(** The value a rotate call asks for; [stop] asks for nothing new. *)
Lemma do_call_request (c : call) (w : Wheel.t) :
  Wheel._current_dc_val (fst (do_call c w)) =
  match c with
  | Clockwise s | Anticlockwise s => s
  | Stop => Wheel._current_dc_val w
  end.
Proof.
  destruct c; cbn [do_call];
    rewrite ?clockwise_rotate_spec, ?anticlockwise_rotate_spec; reflexivity.
Qed.

(** A rotate call in the sense the wheel already has writes no direction
    pin. *)
Lemma same_sense_after (c c' : call) (w : Wheel.t) :
  letter c' = letter c -> c' <> Stop ->
  outputs (snd (do_call c' (fst (do_call c w)))) = [].
Proof.
  intros Hl Hs. pose proof (do_call_letter c w) as Hd. rewrite <- Hl in Hd.
  destruct c' as [s' | s' |]; [| | congruence]; cbn [do_call letter] in *;
    rewrite ?clockwise_rotate_spec, ?anticlockwise_rotate_spec; cbn [snd];
    rewrite Hd; cbn [Wheel.str_ne String.eqb Ascii.eqb Bool.eqb negb];
    simpl;
    destruct (Wheel.num_ne s' _); reflexivity.
Qed.

Lemma own_event_pins (w w' : Wheel.t) (e : event) :
  pins w' = pins w -> own_event w' e = own_event w e.
Proof.
  unfold pins. intros [= E0 E1 E2]. destruct e; simpl; congruence.
Qed.

Lemma own_after (c c' : call) (w : Wheel.t) :
  forallb (own_event w) (snd (do_call c' (fst (do_call c w)))) = true.
Proof.
  destruct (do_call_events c' (fst (do_call c w))) as (Ho & _).
  rewrite forallb_forall in *. intros e He.
  rewrite <- (own_event_pins w (fst (do_call c w)) e); [apply Ho, He |].
  destruct (do_call_pins c w) as (E0 & E1 & E2).
  unfold pins. rewrite E0, E1, E2. reflexivity.
Qed.

Lemma own_weaken_l (w w' : Wheel.t) (tr : list event) :
  forallb (own_event w) tr = true ->
  forallb (fun e => own_event w e || own_event w' e) tr = true.
Proof.
  rewrite !forallb_forall. intros H e He. rewrite (H e He). reflexivity.
Qed.

Lemma own_weaken_r (w w' : Wheel.t) (tr : list event) :
  forallb (own_event w') tr = true ->
  forallb (fun e => own_event w e || own_event w' e) tr = true.
Proof.
  rewrite !forallb_forall. intros H e He. rewrite (H e He).
  apply orb_true_r.
Qed.

(** X7. A turn never changes a wheel's sense of rotation relative to
    forward motion. Going from [move_forward(s)] to [turn_left(s)] writes no
    direction pin and touches only the PWM channels of the two left wheels,
    which are asked for 2.2 and 1.2 whatever [s] is; [turn_right(s)] does the
    same with the two right wheels, asked for 2 and 1. *)
Theorem turn_slows_one_side (s : float) (car : Car.t) :
  numeric (Clockwise s) ->
  numeric (Clockwise (s + RIGHT_FR_BIAS)) ->
  numeric (Clockwise (s + LEFT_RIGHT_BIAS)) ->
  numeric (Clockwise (s + LEFT_FR_BIAS + LEFT_RIGHT_BIAS)) ->
  let car1 := fst (Car.move_forward s car) in
  let fl := Car._front_left_wheel car in
  let fr := Car._front_right_wheel car in
  let rl := Car._rear_left_wheel car in
  let rr := Car._rear_right_wheel car in
  directions (fst (Car.turn_left s car1)) = ["a"; "c"; "a"; "c"]%string
  /\ directions (fst (Car.turn_right s car1)) = ["a"; "c"; "a"; "c"]%string
  /\ requests (fst (Car.turn_left s car1))
     = [2.2; s + RIGHT_FR_BIAS; 1.2; s]%float
  /\ requests (fst (Car.turn_right s car1))
     = [s + LEFT_FR_BIAS + LEFT_RIGHT_BIAS; 2; s + LEFT_RIGHT_BIAS; 1]%float
  /\ outputs (snd (Car.turn_left s car1)) = []
  /\ outputs (snd (Car.turn_right s car1)) = []
  /\ forallb (fun e => own_event fl e || own_event rl e)
             (snd (Car.turn_left s car1)) = true
  /\ forallb (fun e => own_event fr e || own_event rr e)
             (snd (Car.turn_right s car1)) = true.
Proof.
  intros N4 N2 N3 N1 car1 fl fr rl rr. subst car1.
  change (Car.move_forward s car) with (wheel_calls (calls_of (Forward s)) car).
  change (Car.turn_left s) with (wheel_calls (calls_of (TurnLeft s))).
  change (Car.turn_right s) with (wheel_calls (calls_of (TurnRight s))).
  cbn [calls_of wheel_calls]. rewrite !car_calls_twice. cbn [fst snd].
  unfold requests, directions, wheels. cbn [map Car._front_left_wheel
    Car._front_right_wheel Car._rear_left_wheel Car._rear_right_wheel].
  rewrite !do_call_letter, !do_call_request. cbn [letter].
  fold fl fr rl rr.
  rewrite (do_call_again_silent (Clockwise (s + RIGHT_FR_BIAS)) fr N2),
    (do_call_again_silent (Clockwise s) rr N4),
    (do_call_again_silent (Anticlockwise (s + LEFT_FR_BIAS + LEFT_RIGHT_BIAS)) fl N1),
    (do_call_again_silent (Anticlockwise (s + LEFT_RIGHT_BIAS)) rl N3).
  rewrite !outputs_app, !forallb_app. cbn [outputs filter forallb app].
  rewrite !same_sense_after by (reflexivity || discriminate).
  rewrite (own_weaken_l fl rl _ (own_after _ _ fl)),
    (own_weaken_r fl rl _ (own_after _ _ rl)),
    (own_weaken_l fr rr _ (own_after _ _ fr)),
    (own_weaken_r fr rr _ (own_after _ _ rr)).
  repeat split; reflexivity.
Qed.

Lemma turn_slows_one_side_witness :
  requests (fst (Car.turn_left 30 (fst (Car.move_forward 30 fresh_car))))
  = [2.2; 31; 1.2; 30]%float
  /\ snd (Car.turn_left 30 (fst (Car.move_forward 30 fresh_car)))
     = [ChangeDutyCycle 33 2.2; ChangeDutyCycle 40 1.2].
Proof.
  split; [| reflexivity].
  apply (turn_slows_one_side 30 fresh_car); reflexivity.
Defined.

(** ** The length prefix and the server: further properties *)

Lemma byte_of_to_N (b : byte) (q : N) :
  byte_of_N (Byte.to_N b + 256 * q) = b.
Proof.
  unfold byte_of_N.
  pose proof (Byte.to_N_bounded b) as Hb.
  replace ((Byte.to_N b + 256 * q) mod 256)%N with (Byte.to_N b).
  - rewrite Byte.of_to_N. reflexivity.
  - apply (N.mod_unique _ 256 q); lia.
Qed.

(** X8. [struct.pack('<L', n)] and [struct.unpack('<L', data)] are inverse
    to each other between the numbers below 2^32 and the 4-byte strings:
    packing raises exactly for the numbers that do not fit, unpacking raises
    exactly for data that is not 4 bytes long, and each undoes the other. *)
Theorem struct_L_round_trip :
  (forall n : N,
      (n < 2 ^ 32)%N ->
      exists hdr, pack_L n = Some hdr /\ List.length hdr = 4%nat
                  /\ unpack_L hdr = Some n)
  /\ (forall n : N, (2 ^ 32 <= n)%N -> pack_L n = None)
  /\ (forall b0 b1 b2 b3 : byte,
      exists n, unpack_L [b0; b1; b2; b3] = Some n /\ (n < 2 ^ 32)%N
                /\ pack_L n = Some [b0; b1; b2; b3])
  /\ (forall data : list byte,
      List.length data <> 4%nat -> unpack_L data = None).
Proof.
  split; [| split; [| split]].
  - intros n Hn. unfold pack_L. apply N.ltb_lt in Hn. rewrite Hn.
    eexists. split; [reflexivity | split; [reflexivity |]].
    apply unpack_pack. unfold pack_L. rewrite Hn. reflexivity.
  - intros n Hn. unfold pack_L. apply N.ltb_ge in Hn. rewrite Hn. reflexivity.
  - intros b0 b1 b2 b3. eexists. split; [reflexivity |].
    pose proof (Byte.to_N_bounded b0) as H0.
    pose proof (Byte.to_N_bounded b1) as H1.
    pose proof (Byte.to_N_bounded b2) as H2.
    pose proof (Byte.to_N_bounded b3) as H3.
    change (2 ^ 32)%N with 4294967296%N.
    split; [lia |].
    unfold pack_L. change (2 ^ 32)%N with 4294967296%N.
    replace (_ <? 4294967296)%N with true by (symmetry; apply N.ltb_lt; lia).
    set (n := (Byte.to_N b0 + 256 * Byte.to_N b1 + 65536 * Byte.to_N b2
               + 16777216 * Byte.to_N b3)%N).
    assert (E1 : (n / 256 = Byte.to_N b1 + 256 * (Byte.to_N b2 + 256 * Byte.to_N b3))%N).
    { symmetry. apply (N.div_unique n 256 _ (Byte.to_N b0)); subst n; lia. }
    assert (E2 : (n / 65536 = Byte.to_N b2 + 256 * Byte.to_N b3)%N).
    { symmetry.
      apply (N.div_unique n 65536 _ (Byte.to_N b0 + 256 * Byte.to_N b1));
        subst n; lia. }
    assert (E3 : (n / 16777216 = Byte.to_N b3 + 256 * 0)%N).
    { symmetry.
      apply (N.div_unique n 16777216 _
               (Byte.to_N b0 + 256 * Byte.to_N b1 + 65536 * Byte.to_N b2));
        subst n; lia. }
    rewrite E1, E2, E3.
    replace n with (Byte.to_N b0 + 256 * (Byte.to_N b1 + 256 * Byte.to_N b2
                                          + 65536 * Byte.to_N b3))%N
      by (subst n; lia).
    rewrite !byte_of_to_N. reflexivity.
  - intros data Hlen.
    destruct data as [| b0 [| b1 [| b2 [| b3 [| b4 rest]]]]]; try reflexivity.
    simpl in Hlen. congruence.
Qed.

Lemma struct_L_round_trip_witness :
  (exists hdr, pack_L 12345 = Some hdr /\ List.length hdr = 4%nat
               /\ unpack_L hdr = Some 12345%N)
  /\ pack_L (2 ^ 32) = None
  /\ unpack_L ["001"%byte; "002"%byte; "003"%byte] = None.
Proof.
  destruct struct_L_round_trip as (Hpack & Hbig & _ & Hshort).
  split; [apply Hpack; reflexivity |].
  split; [apply Hbig; apply N.le_refl |].
  apply Hshort. discriminate.
Defined.

Section ServerEdges.

Variable classify : list byte -> N.

(** X9. When the connection ends before a whole length prefix arrives, in
    particular when the client goes away without sending the zero length,
    the pass raises [struct.error] after its single read: nothing is
    written, the loop ends with that exception. *)
Theorem server_short_header_raises (k : Z) (ks : list Z) (inbuf : list byte) :
  (List.length inbuf < 4)%nat ->
  Server.iteration classify k inbuf =
    ((Raised "struct.error", []), [ConnRead 4 inbuf])
  /\ Server.loop classify (k :: ks) inbuf =
    ((Raised "struct.error", []), [ConnRead 4 inbuf]).
Proof.
  intros Hlen.
  assert (Hit : Server.iteration classify k inbuf =
                ((Raised "struct.error", []), [ConnRead 4 inbuf])).
  { destruct inbuf as [| b0 [| b1 [| b2 [| b3 rest]]]];
      try reflexivity. simpl in Hlen. lia. }
  split; [exact Hit |].
  rewrite server_loop_cons, Hit. reflexivity.
Qed.

Lemma land_255 (k : Z) : Z.land k 255 = (k mod 256)%Z.
Proof.
  change 255%Z with (Z.ones 8). rewrite Z.land_ones by lia. reflexivity.
Qed.

(** X10. After a frame with a payload, the server leaves its loop exactly
    when the low byte of what [cv2.waitKey(1)] returned is [ord('q')], and
    only after the reply has been written and flushed; with no key pressed
    ([-1]) it goes on to the next frame. *)
Theorem server_quit_key (waitKey : Z) (b0 b1 b2 b3 : byte) (rest : list byte) :
  unpack_L [b0; b1; b2; b3] <> Some 0%N ->
  let r := Server.iteration classify waitKey (b0 :: b1 :: b2 :: b3 :: rest) in
  (fst (fst r) = Break <-> (waitKey mod 256 = 113)%Z)
  /\ (fst (fst r) = Continue <-> (waitKey mod 256 <> 113)%Z)
  /\ (waitKey = (-1)%Z -> fst (fst r) = Continue)
  /\ exists reply, skipn 2 (snd r) = [ConnWrite reply; ConnFlush].
Proof.
  intros Hnz r. subst r. rewrite server_iteration_spec. cbv zeta.
  cbn [unpack_L] in Hnz.
  destruct (_ =? 0)%N eqn:Ez.
  { apply N.eqb_eq in Ez. rewrite Ez in Hnz. congruence. }
  cbn [fst snd skipn]. rewrite land_255.
  destruct (waitKey mod 256 =? 113)%Z eqn:Eq.
  - apply Z.eqb_eq in Eq.
    repeat split; try congruence; try discriminate; try tauto.
    + intros ->. discriminate.
    + eexists. reflexivity.
  - apply Z.eqb_neq in Eq.
    repeat split; try congruence; try discriminate; try tauto.
    eexists. reflexivity.
Qed.

End ServerEdges.

Lemma server_short_header_raises_witness :
  Server.loop (fun _ => 1%N) [0%Z; 0%Z] ["007"%byte; "000"%byte] =
    ((Raised "struct.error", []), [ConnRead 4 ["007"%byte; "000"%byte]]).
Proof.
  apply (server_short_header_raises (fun _ => 1%N) 0 [0%Z]
           ["007"%byte; "000"%byte]).
  simpl. lia.
Defined.

Lemma server_quit_key_witness :
  fst (fst (Server.iteration (fun _ => 0%N) 113
              ["001"%byte; "000"%byte; "000"%byte; "000"%byte; "042"%byte]))
  = Break
  /\ fst (fst (Server.iteration (fun _ => 0%N) (-1)
                 ["001"%byte; "000"%byte; "000"%byte; "000"%byte; "042"%byte]))
     = Continue.
Proof.
  split.
  - apply (proj1 (server_quit_key (fun _ => 0%N) 113
                    "001"%byte "000"%byte "000"%byte "000"%byte ["042"%byte]
                    ltac:(discriminate))).
    reflexivity.
  - apply (proj1 (proj2 (proj2 (server_quit_key (fun _ => 0%N) (-1)
                    "001"%byte "000"%byte "000"%byte "000"%byte ["042"%byte]
                    ltac:(discriminate))))).
    reflexivity.
Defined.

Lemma digits_only (d : Decimal.uint) :
  forallb is_digit (list_byte_of_string (NilEmpty.string_of_uint d)) = true.
Proof. induction d; simpl; auto. Qed.

Lemma digit_decodes (b : byte) :
  is_digit b = true -> Client.decode_utf8 [b] <> None.
Proof.
  unfold is_digit. intros H. apply andb_prop in H as [_ H].
  apply N.leb_le in H. rewrite decode_ascii by lia. discriminate.
Qed.

(** X11. The reply to a frame, [str(key).encode('utf-8')], is never empty
    and consists of ASCII digits only, so every byte of it decodes on the
    client; it is a single byte exactly when the class index is below 10. *)
Theorem server_reply_is_digits (key : N) :
  Server.encode_key key <> []
  /\ forallb is_digit (Server.encode_key key) = true
  /\ (forall b, In b (Server.encode_key key) -> Client.decode_utf8 [b] <> None)
  /\ (List.length (Server.encode_key key) = 1%nat <-> (key < 10)%N).
Proof.
  assert (Hd : forallb is_digit (Server.encode_key key) = true).
  { unfold Server.encode_key, NilZero.string_of_uint.
    destruct (N.to_uint key) eqn:E; try (rewrite <- E; apply digits_only).
    reflexivity. }
  split; [| split; [exact Hd | split]].
  - unfold Server.encode_key, NilZero.string_of_uint.
    destruct (N.to_uint key); discriminate.
  - intros b Hb. apply digit_decodes.
    rewrite forallb_forall in Hd. apply Hd, Hb.
  - split.
    + intros Hlen. rewrite <- (DecimalN.Unsigned.of_to key).
      unfold Server.encode_key, NilZero.string_of_uint in Hlen.
      destruct (N.to_uint key) as [| d | d | d | d | d | d | d | d | d | d];
        try (destruct d; try discriminate Hlen); simpl; lia.
    + intros Hk. destruct (encode_key_digit key Hk) as [-> _]. reflexivity.
Qed.

(** ** Client and server over many frames *)

Lemma filter_nil_weaken {A} (f g : A -> bool) (l : list A) :
  (forall a, f a = true -> g a = true) ->
  filter g l = [] -> filter f l = [].
Proof.
  intros Hfg. induction l as [|a l IH]; simpl; [reflexivity |].
  destruct (g a) eqn:Eg; [discriminate |]. intros Hl.
  destruct (f a) eqn:Ef; [rewrite (Hfg a Ef) in Eg; discriminate |].
  apply IH, Hl.
Qed.

Lemma wire_app (t1 t2 : list event) : wire (t1 ++ t2) = wire t1 ++ wire t2.
Proof. apply flat_map_app. Qed.

Lemma wire_no_conn (tr : list event) : filter is_conn tr = [] -> wire tr = [].
Proof.
  induction tr as [|e tr IH]; simpl; [reflexivity |].
  destruct e; simpl; try discriminate; exact IH.
Qed.

Lemma dispatch_quiet (key : string) (car : Car.t) :
  filter is_flush (snd (Client.dispatch key car)) = []
  /\ filter is_read (snd (Client.dispatch key car)) = []
  /\ wire (snd (Client.dispatch key car)) = [].
Proof.
  pose proof (dispatch_no_conn key car) as H.
  split; [| split].
  - apply (filter_nil_weaken _ is_conn); [| exact H].
    intros e; destruct e; simpl; congruence.
  - apply (filter_nil_weaken _ is_conn); [| exact H].
    intros e; destruct e; simpl; congruence.
  - apply wire_no_conn, H.
Qed.

(** One pass, counted: either the frame does not fit a 32-bit length and
    nothing but the capture happened, or the pass flushed once, read once,
    took at most one byte from the server and counted the frame. *)
Lemma iteration_counts (frame : list byte) (st : Client.state) :
  let r := Client.iteration frame st in
  (fst (fst r) <> Continue
   /\ snd (fst r) = st
   /\ filter is_flush (snd r) = [] /\ filter is_read (snd r) = []
   /\ wire (snd r) = [])
  \/ (Client.count (snd (fst r)) = (Client.count st + 1)%N
      /\ Client.inbuf (snd (fst r)) = skipn 1 (Client.inbuf st)
      /\ List.length (filter is_flush (snd r)) = 1%nat
      /\ List.length (filter is_read (snd r)) = 1%nat
      /\ wire (snd r) = frame_bytes frame).
Proof.
  intros r. subst r. unfold frame_bytes.
  destruct (pack_L (N.of_nat (List.length frame))) as [hdr|] eqn:Hp.
  - right. rewrite (iteration_spec frame st hdr Hp).
    destruct (Client.decode_utf8 (firstn 1 (Client.inbuf st))) as [key|].
    + destruct (dispatch_quiet key (Client.my_car st)) as (Hf & Hr & Hw).
      cbn [fst snd Client.count Client.inbuf].
      rewrite !filter_app, wire_app, Hf, Hr, Hw. simpl.
      rewrite !app_nil_r. auto.
    + cbn [fst snd Client.count Client.inbuf]. simpl.
      rewrite !app_nil_r. auto.
  - left. unfold Client.iteration. rewrite Hp, bind_eq. unfold emit, ret.
    cbn [fst snd]. repeat split; try reflexivity. discriminate.
Qed.

Lemma loop_counts (frames : list (list byte)) (st : Client.state) :
  let r := Client.loop frames st in
  let sent := List.length (filter is_flush (snd r)) in
  Client.count (snd (fst r)) = (Client.count st + N.of_nat sent)%N
  /\ List.length (filter is_read (snd r)) = sent
  /\ Client.inbuf (snd (fst r)) = skipn sent (Client.inbuf st)
  /\ (sent <= List.length frames)%nat
  /\ (fst (fst r) = Continue ->
      sent = List.length frames
      /\ wire (snd r) = flat_map frame_bytes frames).
Proof.
  revert st. induction frames as [|f fs IH]; intros st r sent.
  - subst sent r; simpl. rewrite N.add_0_r. repeat split; auto.
  - subst sent r. rewrite loop_cons.
    destruct (iteration_counts f st)
      as [(Ho & Hst & Hf & Hr & Hw) | (Hc & Hi & Hf & Hr & Hw)].
    + destruct (fst (fst (Client.iteration f st))) eqn:Eo; [congruence | |];
        cbn [fst snd]; rewrite Hst, Hf, Hr; simpl; rewrite N.add_0_r;
        repeat split; auto; try lia; discriminate.
    + specialize (IH (snd (fst (Client.iteration f st)))). cbv zeta in IH.
      destruct IH as (IHc & IHr & IHi & IHle & IHk).
      destruct (fst (fst (Client.iteration f st))) eqn:Eo; cbn [fst snd].
      * rewrite !filter_app, !length_app, Hf, Hr, IHc, IHr, IHi, Hc, Hi.
        rewrite skipn_skipn, wire_app, Hw.
        split; [lia |]. split; [lia |].
        split; [f_equal; lia |]. split; [simpl; lia |].
        intros Hk. destruct (IHk Hk) as [E1 E2]. rewrite E2.
        split; [simpl; lia | reflexivity].
      * rewrite Hf, Hr, Hc, Hi. simpl.
        repeat split; try lia; discriminate.
      * rewrite Hf, Hr, Hc, Hi. simpl.
        repeat split; try lia; discriminate.
Qed.

(** X12. The client's frame counter and its reads. Over any run of the
    capture loop, whatever the server sends and however the run ends, the
    counter grows by the number of flushes, that is of frames sent; the
    client reads the connection exactly once per frame sent, and each read
    takes at most one byte. A run that ends normally has sent every frame. *)
Theorem client_counts_frames (frames : list (list byte)) (st : Client.state) :
  let r := Client.loop frames st in
  let sent := List.length (filter is_flush (snd r)) in
  Client.count (snd (fst r)) = (Client.count st + N.of_nat sent)%N
  /\ List.length (filter is_read (snd r)) = sent
  /\ Client.inbuf (snd (fst r)) = skipn sent (Client.inbuf st)
  /\ (sent <= List.length frames)%nat
  /\ (fst (fst r) = Continue ->
      sent = List.length frames
      /\ wire (snd r) = flat_map frame_bytes frames).
Proof. exact (loop_counts frames st). Qed.

Lemma do_commands_app (a b : list command) (car : Car.t) :
  do_commands (a ++ b) car =
  (fst (do_commands b (fst (do_commands a car))),
   snd (do_commands a car) ++ snd (do_commands b (fst (do_commands a car)))).
Proof.
  revert car. induction a as [|c a IH]; intros car; simpl.
  - destruct (do_commands b car); reflexivity.
  - rewrite !bind_eq, IH. cbn [fst snd]. rewrite app_assoc. reflexivity.
Qed.

Lemma do_commands_one (c : command) (car : Car.t) :
  do_commands [c] car = do_command c car.
Proof.
  simpl. rewrite bind_eq. unfold ret. cbn [fst snd]. rewrite app_nil_r.
  destruct (do_command c car); reflexivity.
Qed.

Lemma gpio_app (t1 t2 : list event) :
  filter is_gpio (t1 ++ t2) = filter is_gpio t1 ++ filter is_gpio t2.
Proof. apply filter_app. Qed.

(** The digit of a class index decodes, and the client runs for it the
    commands of that class: the same car results, and the same calls on the
    driver. *)
Lemma reply_dispatch (k : N) (car : Car.t) :
  (k < 10)%N ->
  exists key,
    Client.decode_utf8 [reply_byte k] = Some key
    /\ fst (Client.dispatch key car) = fst (do_commands (class_commands k) car)
    /\ filter is_gpio (snd (Client.dispatch key car))
       = filter is_gpio (snd (do_commands (class_commands k) car)).
Proof.
  intros Hk.
  assert (H : (k = 0 \/ k = 1 \/ k = 2 \/ k = 3 \/ k = 4 \/ k = 5
               \/ k = 6 \/ k = 7 \/ k = 8 \/ k = 9)%N) by lia.
  destruct H as [-> | [-> | [-> | H]]].
  - exists "0"%string. split; [reflexivity |].
    rewrite dispatch_zero. cbn [class_commands]. rewrite do_commands_one.
    split; reflexivity.
  - exists "1"%string. split; [reflexivity |].
    rewrite dispatch_one. cbn [class_commands]. rewrite do_commands_one.
    cbn [fst snd]. rewrite gpio_app. cbn [filter is_gpio].
    rewrite app_nil_r. split; reflexivity.
  - exists "2"%string. split; [reflexivity |].
    rewrite dispatch_two. cbn [class_commands]. rewrite do_commands_one.
    cbn [fst snd]. rewrite gpio_app. cbn [filter is_gpio].
    rewrite app_nil_r. split; reflexivity.
  - repeat (destruct H as [-> | H]; [eexists; split; [reflexivity |];
                                      rewrite dispatch_other; split; reflexivity |]).
    subst k. eexists; split; [reflexivity |].
    rewrite dispatch_other; split; reflexivity.
Qed.

Lemma client_loop_replies (frames : list (list byte)) (ks : list N)
      (st : Client.state) (rest : list byte) :
  Forall (fun f => (N.of_nat (List.length f) < 2 ^ 32)%N) frames ->
  List.length ks = List.length frames ->
  Forall (fun k => (k < 10)%N) ks ->
  Client.inbuf st = map reply_byte ks ++ rest ->
  fst (fst (Client.loop frames st)) = Continue
  /\ Client.inbuf (snd (fst (Client.loop frames st))) = rest
  /\ Client.my_car (snd (fst (Client.loop frames st)))
     = fst (do_commands (flat_map class_commands ks) (Client.my_car st))
  /\ filter is_gpio (snd (Client.loop frames st))
     = filter is_gpio (snd (do_commands (flat_map class_commands ks)
                              (Client.my_car st))).
Proof.
  revert ks st. induction frames as [|f fs IH]; intros ks st Hs Hlen Hc Hin.
  - destruct ks; [| discriminate]. simpl in *. auto.
  - destruct ks as [|k ks]; [discriminate |]. injection Hlen as Hlen.
    inversion Hs as [| ? ? Hf Hs']; subst.
    inversion Hc as [| ? ? Hk Hc']; subst.
    rewrite loop_cons.
    assert (Hp : exists hdr, pack_L (N.of_nat (List.length f)) = Some hdr).
    { unfold pack_L. apply N.ltb_lt in Hf. rewrite Hf. eauto. }
    destruct Hp as [hdr Hp].
    rewrite (iteration_spec f st hdr Hp). cbn [map app] in Hin. rewrite Hin.
    cbn [firstn skipn].
    destruct (reply_dispatch k (Client.my_car st) Hk)
      as (key & Hdec & Hcar & Hev).
    rewrite Hdec. cbn [fst snd].
    specialize (IH ks (Client.mk (fst (Client.dispatch key (Client.my_car st)))
                                 (map reply_byte ks ++ rest)
                                 (Client.count st + 1)) Hs' Hlen Hc' eq_refl).
    destruct IH as (IHo & IHi & IHcar & IHev).
    split; [exact IHo | split; [exact IHi |]].
    cbn [Client.my_car] in IHcar, IHev. cbn [flat_map].
    rewrite do_commands_app. cbn [fst snd]. rewrite <- Hcar.
    split; [exact IHcar |].
    rewrite !gpio_app, IHev, Hev. reflexivity.
Qed.

(** X17. The client over a run of decisions. When the reads of the passes
    return the digits of class indices below 10, one per frame, the loop
    gets through all frames, consumes exactly these digits, counts the
    frames, and has made on the car the calls of each class in order (0:
    [move_forward(4)], 1: [rotate_left(4)], 2: [rotate_right(4)], any other:
    none): the car ends in the state these commands lead to, and the calls
    on the GPIO and PWM driver are those of the commands, in their order. *)
Theorem client_replays_decisions (frames : list (list byte)) (ks : list N)
        (st : Client.state) (rest : list byte) :
  Forall (fun f => (N.of_nat (List.length f) < 2 ^ 32)%N) frames ->
  List.length ks = List.length frames ->
  Forall (fun k => (k < 10)%N) ks ->
  Client.inbuf st = map reply_byte ks ++ rest ->
  let r := Client.loop frames st in
  let cmds := do_commands (flat_map class_commands ks) (Client.my_car st) in
  fst (fst r) = Continue
  /\ Client.inbuf (snd (fst r)) = rest
  /\ Client.count (snd (fst r))
     = (Client.count st + N.of_nat (List.length frames))%N
  /\ Client.my_car (snd (fst r)) = fst cmds
  /\ filter is_gpio (snd r) = filter is_gpio (snd cmds).
Proof.
  intros Hs Hlen Hc Hin r cmds. subst r cmds.
  destruct (client_loop_replies frames ks st rest Hs Hlen Hc Hin)
    as (Ho & Hi & Hcar & Hev).
  pose proof (loop_counts frames st) as Hcount. cbv zeta in Hcount.
  destruct Hcount as (Hn & _ & _ & _ & Hk). destruct (Hk Ho) as [Hsent _].
  rewrite Hsent in Hn. auto.
Qed.

Lemma client_replays_decisions_witness :
  let r := Client.loop [["001"; "002"]; ["003"]; ["004"; "005"; "006"]]%byte
                       (Client.mk fresh_car ["2"; "7"; "1"; "0"]%byte 0) in
  fst (fst r) = Continue
  /\ Client.inbuf (snd (fst r)) = ["0"]%byte
  /\ Client.my_car (snd (fst r))
     = fst (do_commands [RotateRight 4; RotateLeft 4] fresh_car)
  /\ filter is_gpio (snd r)
     = [Output 35 LOW; Output 37 HIGH; ChangeDutyCycle 33 5.2;
        Output 31 LOW; Output 29 HIGH; ChangeDutyCycle 32 5;
        Output 38 LOW; Output 36 HIGH; ChangeDutyCycle 40 5.2;
        Output 13 LOW; Output 11 HIGH; ChangeDutyCycle 15 4;
        Output 35 HIGH; Output 37 LOW; Output 31 HIGH; Output 29 LOW;
        Output 38 HIGH; Output 36 LOW; Output 13 HIGH; Output 11 LOW].
Proof.
  pose proof (client_replays_decisions
                [["001"; "002"]; ["003"]; ["004"; "005"; "006"]]%byte
                [2; 7; 1]%N
                (Client.mk fresh_car ["2"; "7"; "1"; "0"]%byte 0)
                ["0"]%byte) as H.
  destruct H as (Ho & Hi & _ & Hcar & Hev).
  - repeat (apply Forall_cons; [reflexivity |]). apply Forall_nil.
  - reflexivity.
  - repeat (apply Forall_cons; [reflexivity |]). apply Forall_nil.
  - reflexivity.
  - split; [exact Ho | split; [exact Hi | split; [exact Hcar | exact Hev]]].
Defined.

Section Streams.

Variable classify : list byte -> N.

Lemma server_frame_pass (k : Z) (f tail : list byte) :
  sendable f -> (classify f < 10)%N -> (k mod 256 <> 113)%Z ->
  Server.iteration classify k (frame_bytes f ++ tail)
  = ((Continue, tail), served classify f).
Proof.
  intros [Hne Hlen] Hk Hq. unfold frame_bytes, served.
  destruct (pack_L (N.of_nat (List.length f))) as [hdr|] eqn:Hp.
  2:{ unfold pack_L in Hp. apply N.ltb_lt in Hlen. rewrite Hlen in Hp.
      discriminate. }
  pose proof (unpack_pack _ _ Hp) as Hu.
  pose proof (pack_L_length _ _ Hp) as H4.
  destruct hdr as [| b0 [| b1 [| b2 [| b3 [| b4 more]]]]]; try discriminate.
  cbn [app]. rewrite server_iteration_spec. cbv zeta.
  assert (Hu' : (Byte.to_N b0 + 256 * Byte.to_N b1 + 65536 * Byte.to_N b2
                 + 16777216 * Byte.to_N b3)%N = N.of_nat (List.length f))
    by (unfold unpack_L in Hu; congruence).
  rewrite Hu'.
  assert (Hnz : (N.of_nat (List.length f) =? 0)%N = false).
  { apply N.eqb_neq. destruct f; [congruence | simpl; lia]. }
  rewrite Hnz, Nat2N.id, land_255.
  apply Z.eqb_neq in Hq. rewrite Hq.
  rewrite firstn_app, firstn_all, Nat.sub_diag, skipn_app, skipn_all,
    Nat.sub_diag. cbn [firstn skipn app]. rewrite app_nil_r.
  destruct (encode_key_digit _ Hk) as [Henc _]. rewrite Henc.
  reflexivity.
Qed.

Lemma server_loop_frames (frames : list (list byte)) (ks1 ks2 : list Z)
      (tail : list byte) :
  Forall sendable frames ->
  Forall (fun f => (classify f < 10)%N) frames ->
  List.length ks1 = List.length frames ->
  Forall (fun k => (k mod 256 <> 113)%Z) ks1 ->
  Server.loop classify (ks1 ++ ks2) (flat_map frame_bytes frames ++ tail)
  = (fst (Server.loop classify ks2 tail),
     flat_map (served classify) frames ++ snd (Server.loop classify ks2 tail)).
Proof.
  revert ks1. induction frames as [|f fs IH]; intros ks1 Hs Hc Hlen Hq.
  - destruct ks1; [| discriminate]. simpl.
    destruct (Server.loop classify ks2 tail); reflexivity.
  - destruct ks1 as [|k ks1]; [discriminate |].
    inversion Hs as [| ? ? Hf Hs']; subst.
    inversion Hc as [| ? ? Hk Hc']; subst.
    inversion Hq as [| ? ? Hk1 Hq']; subst.
    injection Hlen as Hlen.
    cbn [flat_map app]. rewrite <- !app_assoc, server_loop_cons.
    rewrite (server_frame_pass k f (flat_map frame_bytes fs ++ tail) Hf Hk Hk1).
    cbn [fst snd]. rewrite (IH ks1 Hs' Hc' Hlen Hq'). reflexivity.
Qed.

Lemma wire_served (frames : list (list byte)) :
  Forall sendable frames ->
  wire (flat_map (served classify) frames)
  = map (fun f => reply_byte (classify f)) frames.
Proof.
  induction 1 as [| f fs [_ Hlen] _ IH]; [reflexivity |].
  cbn [flat_map map]. rewrite wire_app, IH. unfold served, pack_L.
  apply N.ltb_lt in Hlen. rewrite Hlen. reflexivity.
Qed.

(** X13. The server over a stream of frames. Let the connection deliver,
    one after the other, frames in the wire format (four bytes of length,
    least significant first, then that many bytes of payload), none of them
    empty, and after them a zero length; let every class index be below 10
    and let 'q' not be pressed while the frames are served. Then the loop
    makes on the connection, frame after frame, exactly the four calls of a
    pass (read 4, read the payload, write the digit, flush), the classifier
    gets each payload exactly as it was framed, the replies are the digits of
    the classes in the order of the frames, and at the zero length the loop
    ends by [break] having read no byte of what follows. *)
Theorem server_serves_frame_stream
        (frames : list (list byte)) (ks1 : list Z) (k : Z) (ks2 : list Z)
        (after : list byte) :
  Forall sendable frames ->
  Forall (fun f => (classify f < 10)%N) frames ->
  List.length ks1 = List.length frames ->
  Forall (fun k => (k mod 256 <> 113)%Z) ks1 ->
  let s := Server.loop classify (ks1 ++ k :: ks2)
             (flat_map frame_bytes frames
              ++ ["000"; "000"; "000"; "000"]%byte ++ after) in
  s = ((Break, after),
       flat_map (served classify) frames
       ++ [ConnRead 4 ["000"; "000"; "000"; "000"]%byte])
  /\ wire (snd s) = map (fun f => reply_byte (classify f)) frames
  /\ List.length (filter is_flush (snd s)) = List.length frames.
Proof.
  intros Hs Hc Hlen Hq s.
  assert (Es : s = ((Break, after),
                    flat_map (served classify) frames
                    ++ [ConnRead 4 ["000"; "000"; "000"; "000"]%byte])).
  { subst s. rewrite (server_loop_frames frames ks1 (k :: ks2) _ Hs Hc Hlen Hq).
    reflexivity. }
  split; [exact Es |]. rewrite Es. cbn [snd].
  rewrite wire_app, (wire_served frames Hs), filter_app, length_app.
  cbn [wire flat_map filter is_flush List.length app].
  rewrite app_nil_r, Nat.add_0_r. split; [reflexivity |].
  clear - Hs. induction Hs as [| f fs [_ Hf] _ IH]; [reflexivity |].
  cbn [flat_map]. rewrite filter_app, length_app, IH.
  unfold served, pack_L. apply N.ltb_lt in Hf. rewrite Hf. reflexivity.
Qed.

End Streams.

Lemma server_serves_frame_stream_witness :
  Server.loop (fun f : list byte => N.of_nat (List.length f)) [-1; -1; -1; -1]%Z
    ["002"; "000"; "000"; "000"; "001"; "002";
     "001"; "000"; "000"; "000"; "003";
     "003"; "000"; "000"; "000"; "004"; "005"; "006";
     "000"; "000"; "000"; "000"; "009"]%byte
  = ((Break, ["009"]%byte),
     [ConnRead 4 ["002"; "000"; "000"; "000"]%byte;
      ConnRead 2 ["001"; "002"]%byte; ConnWrite ["2"]%byte; ConnFlush;
      ConnRead 4 ["001"; "000"; "000"; "000"]%byte;
      ConnRead 1 ["003"]%byte; ConnWrite ["1"]%byte; ConnFlush;
      ConnRead 4 ["003"; "000"; "000"; "000"]%byte;
      ConnRead 3 ["004"; "005"; "006"]%byte; ConnWrite ["3"]%byte; ConnFlush;
      ConnRead 4 ["000"; "000"; "000"; "000"]%byte]).
Proof.
  pose proof (server_serves_frame_stream
                (fun f : list byte => N.of_nat (List.length f))
                [["001"; "002"]; ["003"]; ["004"; "005"; "006"]]%byte
                [-1; -1; -1]%Z (-1)%Z [] ["009"]%byte) as H.
  destruct H as (Hs & _ & _).
  - repeat (apply Forall_cons; [split; [discriminate | reflexivity] |]).
    apply Forall_nil.
  - repeat (apply Forall_cons; [reflexivity |]). apply Forall_nil.
  - reflexivity.
  - repeat (apply Forall_cons; [discriminate |]). apply Forall_nil.
  - exact Hs.
Defined.

(** X14. An empty frame from the camera is sent as four zero bytes, which
    is the end-of-session mark: the server leaves its loop on it without
    replying, while the client, having written an empty payload, goes on to
    wait for a decision. *)
Theorem empty_frame_ends_server
        (classify : list byte -> N) (k : Z) (st : Client.state) (tail : list byte) :
  filter is_conn (snd (Client.iteration [] st)) =
    [Capture []; ConnWrite ["000"; "000"; "000"; "000"]%byte; ConnFlush;
     ConnWrite []; ConnRead 1 (firstn 1 (Client.inbuf st))]
  /\ wire (snd (Client.iteration [] st)) = ["000"; "000"; "000"; "000"]%byte
  /\ Server.iteration classify k (wire (snd (Client.iteration [] st)) ++ tail) =
       ((Break, tail), [ConnRead 4 ["000"; "000"; "000"; "000"]%byte]).
Proof.
  assert (Hp : pack_L (N.of_nat (List.length (@nil byte)))
               = Some ["000"; "000"; "000"; "000"]%byte) by reflexivity.
  assert (Hw : wire (snd (Client.iteration [] st))
               = ["000"; "000"; "000"; "000"]%byte).
  { rewrite (iteration_spec [] st _ Hp).
    destruct (Client.decode_utf8 (firstn 1 (Client.inbuf st))) as [key|];
      cbn [snd]; [| reflexivity].
    rewrite wire_app, (proj2 (proj2 (dispatch_quiet key _))). reflexivity. }
  split; [| split; [exact Hw |]].
  - rewrite (iteration_spec [] st _ Hp).
    destruct (Client.decode_utf8 (firstn 1 (Client.inbuf st))) as [key|];
      cbn [snd]; [| reflexivity].
    rewrite filter_app, dispatch_no_conn. reflexivity.
  - rewrite Hw. reflexivity.
Qed.

(** ** collect_data.py: the keyboard controller *)

Lemma handle_cases (e : Collect.key_event) (st : Collect.state) :
  (e = Collect.QUIT
   /\ Collect.handle e st = ((Raised "SystemExit", st), []))
  \/ (e <> Collect.QUIT /\ event_commands e = []
      /\ Collect.handle e st = ((Continue, st), []))
  \/ exists c flag msg,
      event_commands e = [c]
      /\ Collect.handle e st =
         ((Continue, Collect.mk (fst (do_command c (Collect.car st))) flag),
          snd (do_command c (Collect.car st)) ++ [Print msg])
      /\ ((c = Forward 4 /\ flag = "f") \/ (c = RotateLeft 4 /\ flag = "l")
          \/ (c = RotateRight 4 /\ flag = "r") \/ (c = Halt /\ flag = "s"))%string.
Proof.
  destruct e as [[|] [|] [|] | | |]; cbn [Collect.handle event_commands];
    try (left; split; reflexivity);
    try (right; left; repeat split; (discriminate || reflexivity));
    right; right; do 3 eexists; rewrite !bind_eq; unfold emit, ret;
    cbn [fst snd do_command]; (split; [reflexivity | split; [reflexivity |]]);
    auto 6.
Qed.

Lemma car_control_cons (e : Collect.key_event) (es : list Collect.key_event)
      (st : Collect.state) :
  Collect.car_control (e :: es) st =
  match fst (fst (Collect.handle e st)) with
  | Continue =>
      (fst (Collect.car_control es (snd (fst (Collect.handle e st)))),
       snd (Collect.handle e st)
       ++ snd (Collect.car_control es (snd (fst (Collect.handle e st)))))
  | o => ((o, snd (fst (Collect.handle e st))), snd (Collect.handle e st))
  end.
Proof.
  simpl. rewrite bind_eq.
  destruct (Collect.handle e st) as [[o st'] tr]; simpl.
  destruct o; unfold ret; simpl; rewrite ?app_nil_r; reflexivity.
Qed.

Lemma handle_labelled (e : Collect.key_event) (st : Collect.state) :
  labelled st -> labelled (snd (fst (Collect.handle e st))).
Proof.
  intros Hl.
  destruct (handle_cases e st)
    as [[_ E] | [(_ & _ & E) | (c & flag & msg & _ & E & Hc)]];
    rewrite E; cbn [fst snd]; try exact Hl.
  unfold labelled. cbn [Collect.key_flag Collect.car].
  destruct Hc as [[-> ->] | [[-> ->] | [[-> ->] | [-> ->]]]];
    rewrite do_command_calls; cbn [calls_of wheel_calls];
    rewrite car_calls_spec; unfold directions, requests, wheels;
    cbn [fst map Car._front_left_wheel Car._front_right_wheel
           Car._rear_left_wheel Car._rear_right_wheel];
    rewrite !do_call_letter, ?do_call_request; cbn [letter].
  - right; left. repeat split; reflexivity.
  - right; right; left. repeat split; reflexivity.
  - right; right; right. repeat split; reflexivity.
  - left. repeat split; reflexivity.
Qed.

(** X15. In the data-collection program the key flag that labels the saved
    frames always matches the car: from the start and after any sequence of
    keyboard events, flag "s" goes with all four wheels stopped, "f" with
    the forward senses and requests 5.2, 5, 4.2, 4, "l" with all wheels
    clockwise and "r" with all wheels anticlockwise, at 5.2, 5, 5.2, 4. *)
Theorem key_flag_matches_motion (events : list Collect.key_event) :
  labelled (snd (fst (Collect.car_control events (fst Collect.start)))).
Proof.
  assert (H0 : labelled (fst Collect.start)) by (left; split; reflexivity).
  revert H0. generalize (fst Collect.start).
  induction events as [|e es IH]; intros st Hl; [exact Hl |].
  rewrite car_control_cons. pose proof (handle_labelled e st Hl) as Hh.
  destruct (fst (fst (Collect.handle e st))); cbn [fst snd];
    [apply IH; exact Hh | exact Hh | exact Hh].
Qed.

Lemma settled_all_frame (tr evs : list event) (car : Car.t) :
  (forall p, level_of evs p = None /\ duty_of evs p = None) ->
  Forall (settled tr) (wheels car) -> Forall (settled (tr ++ evs)) (wheels car).
Proof.
  intros Hq Hs. eapply Forall_impl; [| exact Hs]. intros w Hw.
  apply settled_frame; try apply Hq. exact Hw.
Qed.

Lemma handle_settled (e : Collect.key_event) (tr : list event) (st : Collect.state) :
  client_pins (Collect.car st) ->
  Forall (settled tr) (wheels (Collect.car st)) ->
  client_pins (Collect.car (snd (fst (Collect.handle e st))))
  /\ Forall (settled (tr ++ snd (Collect.handle e st)))
            (wheels (Collect.car (snd (fst (Collect.handle e st))))).
Proof.
  intros Hp Hs.
  destruct (handle_cases e st)
    as [[_ E] | [(_ & _ & E) | (c & flag & msg & _ & E & _)]];
    rewrite E; cbn [fst snd Collect.car]; rewrite ?app_nil_r; auto.
  rewrite app_assoc, do_command_calls.
  destruct (calls_of_four c) as (c1 & c2 & c3 & c4 & Ec). rewrite Ec.
  destruct (car_calls_inv c1 c2 c3 c4 tr _ Hp Hs) as [Hp' Hs'].
  split; [exact Hp' |].
  apply settled_all_frame; [intros p; split; reflexivity | exact Hs'].
Qed.

Lemma car_control_settled (events : list Collect.key_event) (tr : list event)
      (st : Collect.state) :
  client_pins (Collect.car st) ->
  Forall (settled tr) (wheels (Collect.car st)) ->
  client_pins (Collect.car (snd (fst (Collect.car_control events st))))
  /\ Forall (settled (tr ++ snd (Collect.car_control events st)))
            (wheels (Collect.car (snd (fst (Collect.car_control events st))))).
Proof.
  revert tr st. induction events as [|e es IH]; intros tr st Hp Hs.
  - simpl. rewrite app_nil_r. auto.
  - rewrite car_control_cons.
    destruct (handle_settled e tr st Hp Hs) as [Hp' Hs'].
    destruct (fst (fst (Collect.handle e st))); cbn [fst snd]; auto.
    rewrite app_assoc. apply IH; assumption.
Qed.

Lemma car_control_snoc (events : list Collect.key_event) (e : Collect.key_event)
      (st : Collect.state) :
  ~ In Collect.QUIT events ->
  Collect.car_control (events ++ [e]) st =
  (fst (Collect.handle e (snd (fst (Collect.car_control events st)))),
   snd (Collect.car_control events st)
   ++ snd (Collect.handle e (snd (fst (Collect.car_control events st))))).
Proof.
  revert st. induction events as [|e0 es IH]; intros st Hq.
  - cbn [app]. rewrite car_control_cons. simpl Collect.car_control.
    unfold ret. cbn [fst snd].
    destruct (Collect.handle e st) as [[o st'] tr]; cbn [fst snd].
    destruct o; rewrite ?app_nil_r; reflexivity.
  - cbn [app]. rewrite !car_control_cons.
    destruct (handle_cases e0 st)
      as [[Eq _] | [(_ & _ & E) | (c & flag & msg & _ & E & _)]].
    + subst e0. exfalso. apply Hq. left. reflexivity.
    + rewrite E. cbn [fst snd]. rewrite IH by (intros H; apply Hq; right; exact H).
      reflexivity.
    + rewrite E. cbn [fst snd]. rewrite IH by (intros H; apply Hq; right; exact H).
      cbn [fst snd]. rewrite app_assoc. reflexivity.
Qed.

(** X16. In the data-collection program a key release brakes the car and
    leaves the motors' duty cycles running: after any events (short of
    quitting) followed by a [KEYUP], the driver holds both direction pins of
    every wheel high, every PWM channel still holds the duty cycle it had
    before the release, and the key flag is "s". *)
Theorem keyup_brakes (events : list Collect.key_event) :
  ~ In Collect.QUIT events ->
  let before := Collect.car_control events (fst Collect.start) in
  let after := Collect.car_control (events ++ [Collect.KEYUP]) (fst Collect.start) in
  let tr0 := snd Collect.start ++ snd before in
  let tr := snd Collect.start ++ snd after in
  Collect.key_flag (snd (fst after)) = "s"%string
  /\ Forall (fun w => dir_signal tr w = Some "s"%string
                      /\ duty_of tr (Wheel._pwm_pin w)
                         = duty_of tr0 (Wheel._pwm_pin w)
                      /\ duty_of tr (Wheel._pwm_pin w)
                         = Some (Wheel._last_dc_val w))
            (wheels (Collect.car (snd (fst after))))
  /\ map Wheel._last_dc_val (wheels (Collect.car (snd (fst after))))
     = map Wheel._last_dc_val (wheels (Collect.car (snd (fst before)))).
Proof.
  intros Hq before after tr0 tr.
  assert (Ea : after =
               ((Continue,
                 Collect.mk (fst (Car.stop (Collect.car (snd (fst before))))) "s"),
                snd before
                ++ snd (Car.stop (Collect.car (snd (fst before))))
                ++ [Print "Stop"])).
  { subst after. rewrite (car_control_snoc events Collect.KEYUP _ Hq).
    fold before. cbn [Collect.handle]. rewrite !bind_eq. unfold emit, ret.
    cbn [fst snd]. rewrite app_nil_r. reflexivity. }
  destruct make_car_inv as (Hp0 & Hs0 & _).
  destruct (car_control_settled events (snd Collect.start) (fst Collect.start)
              Hp0 Hs0) as [Hp Hs].
  fold before in Hp, Hs. fold tr0 in Hs.
  subst tr. rewrite Ea. cbn [fst snd Collect.key_flag Collect.car].
  split; [reflexivity |]. split; [| reflexivity].
  change (Car.stop (Collect.car (snd (fst before))))
    with (car_calls Stop Stop Stop Stop (Collect.car (snd (fst before)))).
  pose proof (car_calls_in_sync Stop Stop Stop Stop tr0 _ Hp Hs) as Hsync.
  rewrite !app_assoc. fold tr0. rewrite Forall_forall in *.
  intros w Hw. destruct (Hsync w Hw) as [Hd Hv].
  assert (Hl : Wheel._last_dir w = "s"%string).
  { rewrite car_calls_spec in Hw. cbn [fst wheels Car._front_left_wheel
      Car._front_right_wheel Car._rear_left_wheel Car._rear_right_wheel do_call] in Hw.
    simpl in Hw. destruct Hw as [<- | [<- | [<- | [<- | []]]]]; reflexivity. }
  unfold dir_signal in *. rewrite !level_of_app, !duty_of_app in *.
  cbn [level_of duty_of last_of level_in duty_in].
  rewrite Hl in Hd.
  assert (Hquiet : duty_of (snd (car_calls Stop Stop Stop Stop
                                  (Collect.car (snd (fst before)))))
                           (Wheel._pwm_pin w) = None).
  { rewrite car_calls_spec. cbn [snd do_call]. reflexivity. }
  rewrite Hquiet in *. auto.
Qed.

Lemma keyup_brakes_witness :
  let after := Collect.car_control
                 [Collect.KEYDOWN true false false; Collect.KEYUP]
                 (fst Collect.start) in
  Collect.key_flag (snd (fst after)) = "s"%string
  /\ map Wheel._last_dc_val (wheels (Collect.car (snd (fst after))))
     = [5.2; 5; 4.2; 4]%float.
Proof.
  pose proof (keyup_brakes [Collect.KEYDOWN true false false]) as H.
  destruct H as (Hf & _ & Hv).
  - intros [H | []]. discriminate.
  - split; [exact Hf | exact Hv].
Defined.
